(** * SistemadeReservas: resilience layer and reservation saga

    Shallow embedding of
      - [src/shared/resilience-patterns.js], lines 1-164
        (retryWithBackoff, Bulkhead),
      - the inventory service, which follows in the same file at lines
        165-573 (POST /inventario/:eventoId/reservar and /liberar, with their
        Redis and in-memory paths; line numbers below are those of the file),
      - [src/services/reservas/index.js]     (consultarInventario, pagosClient,
        procesarPago, POST /reservas, DELETE /reservas/:id, GET /reservas,
        and the notifications service that follows in the same file),
      - [src/services/pagos/index.js]        (POST /pagos/procesar and
        /pagos/reembolsar, the latency switch).

    Conventions.  JavaScript numbers that hold counts, milliseconds and
    prices are integers in [Z].  A quantity or an amount that a handler
    takes from a JSON body without testing its type is a [Json.valor]: an
    integer, a string, a boolean or [null].  A [Map] keyed by strings is a
    [gmap string].  An [await] on an external collaborator (Redis, an HTTP
    peer, the lock) is a point where the environment chooses the outcome,
    so every handler takes the outcomes of its external calls as explicit
    arguments.  Definitions come first, the theorems follow. *)

From stdpp Require Import base gmap strings list fin_maps relations pretty.

Open Scope Z_scope.

(* ===================================================================== *)
(** * Part I.  Definitions                                                *)
(* ===================================================================== *)

(** A settled promise. *)
Inductive outcome (E A : Type) : Type :=
| Resolved (a : A)
| Rejected (e : E).
Arguments Resolved {E A} a.
Arguments Rejected {E A} e.

(** [String.prototype.includes]. *)
Fixpoint includes (s sub : string) : bool :=
  String.prefix sub s ||
  match s with
  | EmptyString => false
  | String _ rest => includes rest sub
  end.

(* --------------------------------------------------------------------- *)
(** ** JSON values and the JavaScript operators applied to them           *)
(* --------------------------------------------------------------------- *)
Module Json.

(** The values a field of a JSON body holds, as far as they are followed
    here: numbers that are integers (JavaScript computes with them exactly
    below 2^53), strings, booleans and [null].  Fractions, arrays and
    objects are left out; an absent field ([undefined]) is [None] where a
    field is read. *)
Inductive valor : Type :=
| Num (z : Z)
| Str (s : string)
| Bool (b : bool)
| Null.

Definition es_entero (v : valor) : Prop := exists z, v = Num z.

(** ToBoolean, the test of [!v] and [v ? .. : ..]. *)
Definition truthy (v : valor) : bool :=
  match v with
  | Num z => negb (z =? 0)
  | Str s => negb (bool_decide (s = EmptyString))
  | Bool b => b
  | Null => false
  end.

Definition digito (a : Ascii.ascii) : option Z :=
  let n := Z.of_N (Ascii.N_of_ascii a) in
  if (48 <=? n) && (n <=? 57) then Some (n - 48) else None.

Fixpoint digitos (s : string) (acc : Z) : option Z :=
  match s with
  | EmptyString => Some acc
  | String a s' =>
      match digito a with
      | Some d => digitos s' (10 * acc + d)
      | None => None
      end
  end.

(** StringToNumber on the empty string and on the decimal numerals: one or
    more digits, after an optional minus sign.  [None] is any other string
    (which JavaScript turns into NaN, a fraction, ...): the model does not
    follow the handlers there. *)
Definition StringToNumber (s : string) : option Z :=
  match s with
  | EmptyString => Some 0
  | String a s' =>
      if (Z.of_N (Ascii.N_of_ascii a) =? 45) && negb (bool_decide (s' = EmptyString))
      then Z.opp <$> digitos s' 0
      else digitos s 0
  end.

(** ToNumber of a value that is not a string. *)
Definition numero_simple (v : valor) : Z :=
  match v with
  | Num z => z
  | Bool true => 1
  | _ => 0
  end.

Definition ToNumber (v : valor) : option Z :=
  match v with
  | Str s => StringToNumber s
  | _ => Some (numero_simple v)
  end.

Definition ToString (v : valor) : string :=
  match v with
  | Num z => pretty z
  | Str s => s
  | Bool true => "true"
  | Bool false => "false"
  | Null => "null"
  end.

(** [a < b]: two strings are compared as strings, code unit by code unit;
    anything else as numbers. *)
Definition menor (a b : valor) : option bool :=
  match a, b with
  | Str s, Str t => Some (String.ltb s t)
  | _, _ =>
      x ← ToNumber a; y ← ToNumber b; Some (x <? y)
  end.

(** [a <= 0]. *)
Definition no_positivo (a : valor) : option bool :=
  x ← ToNumber a; Some (x <=? 0).

(** [a + b]: concatenation as soon as one side is a string. *)
Definition suma (a b : valor) : valor :=
  match a, b with
  | Str _, _ | _, Str _ => Str (ToString a +:+ ToString b)
  | _, _ => Num (numero_simple a + numero_simple b)
  end.

(** [a - b]: always a number. *)
Definition resta (a b : valor) : option Z :=
  x ← ToNumber a; y ← ToNumber b; Some (x - y).

End Json.


(* --------------------------------------------------------------------- *)
(** ** retryWithBackoff  (resilience-patterns.js, lines 36-64)            *)
(* --------------------------------------------------------------------- *)
Module Retry.

Record Options : Type := {
  maxRetries : Z;
  initialDelay : Z;
  maxDelay : Z;
  factor : Z
}.

(** The defaults of the destructuring at lines 37-43. *)
Definition defaults : Options :=
  {| maxRetries := 3; initialDelay := 1000; maxDelay := 10000; factor := 2 |}.

(** Line 55:
    [Math.min(initialDelay * Math.pow(factor, attempt), maxDelay)],
    [attempt] being the zero-based loop counter. *)
Definition delay (o : Options) (attempt : Z) : Z :=
  Z.min (initialDelay o * factor o ^ attempt) (maxDelay o).

Section Loop.
(** [W] is whatever [fn] and [sleep] act upon (the peer, the clock). *)
Context {W E A : Type}.
Variable fn : W -> W * outcome E A.
Variable sleep : Z -> W -> W.
Variable o : Options.

(** What a run does, in order: a call of [fn] (with the loop counter and the
    error it rejected with, if it did) or a [sleep]. *)
Inductive event : Type :=
| EvCall (attempt : Z) (error : option E)
| EvSleep (ms : Z).

Record run : Type := {
  world : W;
  trace : list event;
  (** [Rejected None] is [throw lastError] with [lastError] never
      assigned (the loop body did not run). *)
  result : outcome (option E) A
}.

(** The [for] loop of lines 47-60; [fuel] is the number of iterations
    left, [attempt] the loop counter, [lastError] the variable of
    line 45. *)
Fixpoint loop (fuel : nat) (attempt : Z) (lastError : option E) (w : W) : run :=
  match fuel with
  | O => {| world := w; trace := []; result := Rejected lastError |}
  | S fuel' =>
      match fn w with
      | (w', Resolved a) =>
          {| world := w'; trace := [EvCall attempt None]; result := Resolved a |}
      | (w', Rejected e) =>
          if attempt <? maxRetries o then
            let d := delay o attempt in
            let r := loop fuel' (attempt + 1) (Some e) (sleep d w') in
            {| world := world r;
               trace := EvCall attempt (Some e) :: EvSleep d :: trace r;
               result := result r |}
          else
            let r := loop fuel' (attempt + 1) (Some e) w' in
            {| world := world r;
               trace := EvCall attempt (Some e) :: trace r;
               result := result r |}
      end
  end.

(** [attempt] runs over 0, 1, ..., maxRetries. *)
Definition retryWithBackoff (w : W) : run :=
  loop (Z.to_nat (maxRetries o + 1)) 0 None w.

Definition sleeps (t : list event) : list Z :=
  omap (fun ev => match ev with EvSleep d => Some d | _ => None end) t.

Definition calls (t : list event) : list Z :=
  omap (fun ev => match ev with EvCall a _ => Some a | _ => None end) t.

End Loop.

Arguments event : clear implicits.
Arguments run : clear implicits.
Arguments EvSleep {E} ms.
Arguments sleeps {E} t.
Arguments calls {E} t.

(** The retry policy in the words of the specification (section 4.1):
    the sleep between attempt [k] and [k+1] (attempts counted from 1) is
    [min(baseDelay * factor^(k-1), maxDelay)] plus a jitter drawn from
    [0, delay); the draw is given as a fraction [num/den] of the delay. *)
Definition spec_sleep (o : Options) (k : Z) (num den : Z) : Z :=
  let d := Z.min (initialDelay o * factor o ^ (k - 1)) (maxDelay o) in
  d + (d * num) / den.

(** Error classes of the specification (sections 4.1 and 7). *)
Inductive error_class : Type :=
| Transient
| ValidationFailure
| BusinessRejection.

Definition spec_retryable (c : error_class) : bool :=
  match c with
  | Transient => true
  | ValidationFailure | BusinessRejection => false
  end.

(** An operation that always rejects with the same error. *)
Definition always_rejects {E : Type} (e : E) : unit -> unit * outcome E unit :=
  fun w => (w, Rejected e).

Definition no_sleep : Z -> unit -> unit := fun _ w => w.

(** An operation that rejects on its first call and resolves with 7 from the
    second on; the world counts the calls made. *)
Definition fails_once : nat -> nat * outcome unit Z :=
  fun w => match w with
           | O => (S w, Rejected tt)
           | S _ => (S w, Resolved 7)
           end.

(** Milliseconds slept over a whole run. *)
Definition total_sleep {E : Type} (t : list (event E)) : Z :=
  foldr Z.add 0 (sleeps t).

End Retry.

(* --------------------------------------------------------------------- *)
(** ** Bulkhead  (resilience-patterns.js, lines 66-105)                   *)
(* --------------------------------------------------------------------- *)
Module Bulkhead.

Section Tasks.
(** Tasks ([fn]) are compared by identity. *)
Context {T : Type} `{EqDecision T}.

(** The fields of the class; [running] lists the tasks whose
    [await fn()] at line 91 is pending, i.e. the suspended frames of
    [_execute]. *)
Record t : Type := {
  maxConcurrent : Z;
  currentConcurrent : Z;
  queue : list T;
  running : list T
}.

(** [new Bulkhead(maxConcurrent)]. *)
Definition new (maxConcurrent : Z) : t :=
  {| maxConcurrent := maxConcurrent; currentConcurrent := 0;
     queue := []; running := [] |}.

Inductive admission : Type :=
| Started   (** [_execute(fn)] was entered *)
| Queued.   (** a pending promise was returned, [fn] sits in the queue *)

(** [_execute], up to its [await]: lines 87-91. *)
Definition _execute (b : t) (fn : T) : t :=
  {| maxConcurrent := maxConcurrent b;
     currentConcurrent := currentConcurrent b + 1;
     queue := queue b;
     running := running b ++ [fn] |}.

(** [execute]: lines 74-84. *)
Definition execute (b : t) (fn : T) : t * admission :=
  if maxConcurrent b <=? currentConcurrent b then
    ({| maxConcurrent := maxConcurrent b;
        currentConcurrent := currentConcurrent b;
        queue := queue b ++ [fn];
        running := running b |}, Queued)
  else (_execute b fn, Started).

(** [_processQueue]: lines 99-104. *)
Definition _processQueue (b : t) : t :=
  match queue b with
  | next :: rest =>
      if currentConcurrent b <? maxConcurrent b then
        _execute {| maxConcurrent := maxConcurrent b;
                    currentConcurrent := currentConcurrent b;
                    queue := rest;
                    running := running b |} next
      else b
  | [] => b
  end.

Fixpoint remove_first (fn : T) (l : list T) : list T :=
  match l with
  | [] => []
  | x :: l' => if decide (x = fn) then l' else x :: remove_first fn l'
  end.

(** Line 94, [this.currentConcurrent--], the first statement of the
    [finally] block: the frame of [fn] is gone and the counter is one
    lower. *)
Definition decrement (b : t) (fn : T) : t :=
  {| maxConcurrent := maxConcurrent b;
     currentConcurrent := currentConcurrent b - 1;
     queue := queue b;
     running := remove_first fn (running b) |}.

(** The [finally] block of [_execute] (lines 93-96), run when the
    promise of [fn] settles, with either outcome. *)
Definition settle (b : t) (fn : T) : t :=
  _processQueue
    {| maxConcurrent := maxConcurrent b;
       currentConcurrent := currentConcurrent b - 1;
       queue := queue b;
       running := remove_first fn (running b) |}.

(** One turn of the event loop that touches the bulkhead. *)
Inductive step : t -> t -> Prop :=
| step_execute b fn : step b (execute b fn).1
| step_settle b fn : fn ∈ running b -> step b (settle b fn).

Definition reachable (maxC : Z) (b : t) : Prop := rtc step (new maxC) b.

(** What every turn keeps true: the counter counts the suspended frames of
    [_execute] and stays within the limit. *)
Definition inv (maxC : Z) (b : t) : Prop :=
  maxConcurrent b = maxC /\
  currentConcurrent b = Z.of_nat (length (running b)) /\
  currentConcurrent b <= maxC.

Definition submit_all (b : t) (fns : list T) : t :=
  foldl (fun b fn => (execute b fn).1) b fns.

(** The admission controller in the words of the specification
    (section 4.3): a bounded queue, and load shedding when it is full. *)
Inductive spec_admission : Type :=
| SpecStarted
| SpecQueued
| SpecAdmissionRejected.

Definition spec_admit (maxQueueLength : Z) (b : t) (fn : T) : t * spec_admission :=
  if currentConcurrent b <? maxConcurrent b then (_execute b fn, SpecStarted)
  else if maxQueueLength <=? Z.of_nat (length (queue b)) then (b, SpecAdmissionRejected)
  else ({| maxConcurrent := maxConcurrent b;
           currentConcurrent := currentConcurrent b;
           queue := queue b ++ [fn];
           running := running b |}, SpecQueued).

End Tasks.

Arguments t : clear implicits.

End Bulkhead.


(* --------------------------------------------------------------------- *)
(** ** Inventory service: reservar and liberar on integers                *)
(* --------------------------------------------------------------------- *)
(** The handlers as they run when the quantity of the body is a JSON
    integer (or absent) and the stored counts are integers, which is what
    the service does for itself: it initialises the counts with integers.
    What the handlers do with the other values of a JSON body is in the
    module [InventarioJson] below. *)
Module Inventario.

(** An event as held in [inventarioMemoria] and, JSON-encoded, in Redis. *)
Record evento : Type := {
  id : string;
  nombre : string;
  asientosDisponibles : Z;
  precio : Z
}.

Definition con_asientos (ev : evento) (n : Z) : evento :=
  {| id := id ev; nombre := nombre ev; asientosDisponibles := n; precio := precio ev |}.

(** The module-level state: the flag [redisConnected], the Redis keyspace
    and the [Map] [inventarioMemoria]. *)
Record Estado : Type := {
  redisConnected : bool;
  redisStore : gmap string evento;
  inventarioMemoria : gmap string evento
}.

Definition con_redisConnected (st : Estado) (b : bool) : Estado :=
  {| redisConnected := b; redisStore := redisStore st;
     inventarioMemoria := inventarioMemoria st |}.

Definition con_redisStore (st : Estado) (m : gmap string evento) : Estado :=
  {| redisConnected := redisConnected st; redisStore := m;
     inventarioMemoria := inventarioMemoria st |}.

Definition con_inventarioMemoria (st : Estado) (m : gmap string evento) : Estado :=
  {| redisConnected := redisConnected st; redisStore := redisStore st;
     inventarioMemoria := m |}.

(** The template string [`inventario:${eventoId}`]. *)
Definition clave (eventoId : string) : string := "inventario:" +:+ eventoId.

(** The array of [inicializarInventario]. *)
Definition eventos : list evento :=
  [ {| id := "evento-1"; nombre := "Rock Concert"; asientosDisponibles := 100; precio := 50 |};
    {| id := "evento-2"; nombre := "Classical Theater"; asientosDisponibles := 50; precio := 30 |};
    {| id := "evento-3"; nombre := "Music Festival"; asientosDisponibles := 500; precio := 80 |};
    {| id := "evento-4"; nombre := "Stand-up Comedy"; asientosDisponibles := 1; precio := 25 |} ].

(** The state [inicializarInventario] leaves: the memory map always, the
    Redis keys when the connection is up. *)
Definition inicial (conectado : bool) : Estado :=
  {| redisConnected := conectado;
     redisStore :=
       if conectado
       then foldl (fun m ev => <[clave (id ev) := ev]> m) ∅ eventos
       else ∅;
     inventarioMemoria := foldl (fun m ev => <[id ev := ev]> m) ∅ eventos |}.

(** The service keeps no capacity field; the total of an event is the number
    of seats it is initialised with. *)
Definition totalUnits (eventoId : string) : option Z :=
  asientosDisponibles <$> (inventarioMemoria (inicial false) !! eventoId).

Inductive Respuesta : Type :=
| Json200 (asientosDisponibles : Z)
| JsonError (status : Z) (error : string).

(** [!cantidad || cantidad <= 0]; [None] is a body without [cantidad]. *)
Definition cantidad_invalida (cantidad : option Z) : bool :=
  match cantidad with
  | None => true
  | Some c => (c =? 0) || (c <=? 0)
  end.

(** The in-memory branch of reservar (lines 347-372, again at 417-442). *)
Definition reservarEnMemoria (st : Estado) (eventoId : string) (c : Z) : Estado * Respuesta :=
  match inventarioMemoria st !! eventoId with
  | None => (st, JsonError 404 "Event not found")
  | Some ev =>
      if asientosDisponibles ev <? c then (st, JsonError 409 "Insufficient seats")
      else
        let ev' := con_asientos ev (asientosDisponibles ev - c) in
        (con_inventarioMemoria st (<[eventoId := ev']> (inventarioMemoria st)),
         Json200 (asientosDisponibles ev'))
  end.

(** The Lua script of lines 376-395, run atomically by Redis.  An [{err=..}]
    table comes back as an error reply, which rejects [redis.eval]. *)
Definition script (store : gmap string evento) (key : string) (c : Z)
  : gmap string evento * outcome string Z :=
  match store !! key with
  | None => (store, Rejected "Event not found")
  | Some eventoData =>
      if asientosDisponibles eventoData <? c then (store, Rejected "Insufficient seats")
      else
        let ev' := con_asientos eventoData (asientosDisponibles eventoData - c) in
        (<[key := ev']> store, Resolved (asientosDisponibles ev'))
  end.

(** POST /inventario/:eventoId/reservar.  [redis_up] says whether the
    [redis.eval] round trip works; when it is false the call rejects with a
    connection error.  Every rejection of [redis.eval], the script's own
    error replies included, lands in the [catch] of line 412, which clears
    [redisConnected] and falls through to the in-memory branch. *)
Definition reservar (st : Estado) (eventoId : string) (cantidad : option Z)
  (redis_up : bool) : Estado * Respuesta :=
  match cantidad with
  | Some c =>
      if cantidad_invalida cantidad then (st, JsonError 400 "Invalid quantity")
      else if negb (redisConnected st) then reservarEnMemoria st eventoId c
      else
        match (if redis_up then script (redisStore st) (clave eventoId) c
               else (redisStore st, Rejected "Connection is closed.")) with
        | (store', Resolved result) => (con_redisStore st store', Json200 result)
        | (_, Rejected _) => reservarEnMemoria (con_redisConnected st false) eventoId c
        end
  | None => (st, JsonError 400 "Invalid quantity")
  end.

(** The in-memory branch of liberar (lines 495-504) with the response of
    lines 508-513. *)
Definition liberarEnMemoria (st : Estado) (eventoId : string) (c : Z) : Estado * Respuesta :=
  match inventarioMemoria st !! eventoId with
  | None => (st, JsonError 404 "Event not found")
  | Some ev =>
      let ev' := con_asientos ev (asientosDisponibles ev + c) in
      (con_inventarioMemoria st (<[eventoId := ev']> (inventarioMemoria st)),
       Json200 (asientosDisponibles ev'))
  end.

(** After [await redis.set] (line 488): the write landed or the call threw
    (line 489), then the test of line 495. *)
Definition liberar_tras_set (st : Estado) (eventoId : string) (c : Z) (ev' : evento)
  (set_up : bool) : Estado * Respuesta :=
  let st1 :=
    if set_up then con_redisStore st (<[clave eventoId := ev']> (redisStore st))
    else con_redisConnected st false in
  if negb (redisConnected st1) then liberarEnMemoria st1 eventoId c
  else (st1, Json200 (asientosDisponibles ev')).

(** POST /inventario/:eventoId/liberar, when no other request interleaves.
    [get_up] and [set_up] say whether [redis.get] and [redis.set] work. *)
Definition liberar (st : Estado) (eventoId : string) (cantidad : option Z)
  (get_up set_up : bool) : Estado * Respuesta :=
  match cantidad with
  | Some c =>
      if cantidad_invalida cantidad then (st, JsonError 400 "Invalid quantity")
      else if redisConnected st then
        if get_up then
          match redisStore st !! clave eventoId with
          | None => (st, JsonError 404 "Event not found")
          | Some eventoData =>
              liberar_tras_set st eventoId c
                (con_asientos eventoData (asientosDisponibles eventoData + c)) set_up
          end
        else liberarEnMemoria (con_redisConnected st false) eventoId c
      else liberarEnMemoria st eventoId c
  | None => (st, JsonError 400 "Invalid quantity")
  end.

(** GET /inventario/:eventoId (lines 248-296): the new state (a failing
    [redis.get] clears [redisConnected]) and the seats the service reports,
    [None] standing for the 404 answer. *)
Definition consultar (st : Estado) (eventoId : string) (get_up : bool)
  : Estado * option Z :=
  let '(st1, evento) :=
    if redisConnected st then
      if get_up then (st, redisStore st !! clave eventoId)
      else (con_redisConnected st false, None)
    else (st, None) in
  (st1,
   asientosDisponibles <$>
     (match evento with
      | Some ev => Some ev
      | None => inventarioMemoria st1 !! eventoId
      end)).

(** *** Initialisation and administration *)

(** [inicializarInventario] (lines 219-235): every event of the array is set
    in the memory map and, when the flag is up, in Redis. *)
Definition inicializarInventario (st : Estado) : Estado :=
  foldl (fun st ev =>
           let st1 := con_inventarioMemoria st (<[id ev := ev]> (inventarioMemoria st)) in
           if redisConnected st1
           then con_redisStore st1 (<[clave (id ev) := ev]> (redisStore st1))
           else st1)
        st eventos.

(** The table [eventoBase] of POST /admin/configurar-evento (lines 542-547). *)
Definition eventoBase (eventoId : string) : option (string * Z) :=
  if bool_decide (eventoId = "evento-1") then Some ("Rock Concert", 50)
  else if bool_decide (eventoId = "evento-2") then Some ("Classical Theater", 80)
  else if bool_decide (eventoId = "evento-3") then Some ("Music Festival", 120)
  else if bool_decide (eventoId = "evento-4") then Some ("Stand-up Comedy", 30)
  else None.

Inductive RespuestaConfig : Type :=
| Configurado (ev : evento)
| ErrorConfig (status : Z).

(** POST /admin/configurar-evento (lines 536-568).  [set_up] says whether
    [redis.set] works; its failure is answered 500 by the [catch] and leaves
    [redisConnected] as it is. *)
Definition configurarEvento (st : Estado) (eventoId : string) (asientos : Z)
  (set_up : bool) : Estado * RespuestaConfig :=
  let ev :=
    {| id := eventoId;
       nombre := match eventoBase eventoId with
                 | Some (n, _) => n
                 | None => "Custom Event"
                 end;
       asientosDisponibles := asientos;
       precio := match eventoBase eventoId with
                 | Some (_, p) => p
                 | None => 50
                 end |} in
  if redisConnected st then
    if set_up
    then (con_redisStore st (<[clave eventoId := ev]> (redisStore st)), Configurado ev)
    else (st, ErrorConfig 500)
  else (con_inventarioMemoria st (<[eventoId := ev]> (inventarioMemoria st)), Configurado ev).

(** The failure switch: the constant [SIMULAR_FALLO] is read from the
    environment once, when the module loads (line 184); the middleware of
    lines 209-215 tests the constant; POST /admin/simular-fallo (lines
    524-534) assigns [process.env.SIMULAR_FALLO]. *)
Record Interruptor : Type := {
  SIMULAR_FALLO : bool;
  env_SIMULAR_FALLO : string
}.

Definition arranque (env : string) : Interruptor :=
  {| SIMULAR_FALLO := bool_decide (env = "true"); env_SIMULAR_FALLO := env |}.

(** The middleware: [true] when the request goes on to its handler, [false]
    when it is left without an answer. *)
Definition middleware (i : Interruptor) : bool := negb (SIMULAR_FALLO i).

(** The handler of POST /admin/simular-fallo: the new state and the
    [simulandoFallo] field of the answer; [activar] is the truth value of
    the field of that name. *)
Definition simular_fallo (i : Interruptor) (activar : bool) : Interruptor * bool :=
  ({| SIMULAR_FALLO := SIMULAR_FALLO i;
      env_SIMULAR_FALLO := if activar then "true" else "false" |}, activar).

(** A POST /admin/simular-fallo as the service treats it: the route is
    registered after the middleware, so the handler runs only if the
    middleware calls [next()]; [None] is a request left without an
    answer. *)
Definition post_simular_fallo (i : Interruptor) (activar : bool)
  : Interruptor * option bool :=
  if middleware i
  then ((simular_fallo i activar).1, Some (simular_fallo i activar).2)
  else (i, None).

End Inventario.


(* --------------------------------------------------------------------- *)
(** ** Inventory service: reservar and liberar on any JSON quantity       *)
(* --------------------------------------------------------------------- *)
(** The handlers take [cantidad] from the JSON body and never test its
    type, and what they store in [asientosDisponibles] is the result of
    [-=] and [+=] on it.  This module follows them on the values of
    [Json.valor]; the module [Inventario] above is what they do when the
    quantities and the stored counts are integers (lemmas
    [reservarJ_entero] and [liberarJ_entero]).  A handler's result [None]
    means that a string that is no decimal numeral had to be read as a
    number: the model does not follow the handler there. *)
Module InventarioJson.
Import Json.

(** An event whose [asientosDisponibles] is whatever the handlers have
    stored. *)
Record eventoJ : Type := {
  idJ : string;
  nombreJ : string;
  asientosJ : valor;
  precioJ : Z
}.

Definition con_asientosJ (ev : eventoJ) (v : valor) : eventoJ :=
  {| idJ := idJ ev; nombreJ := nombreJ ev; asientosJ := v; precioJ := precioJ ev |}.

(** An event of [Inventario], whose count is an integer. *)
Definition a_json (ev : Inventario.evento) : eventoJ :=
  {| idJ := Inventario.id ev; nombreJ := Inventario.nombre ev;
     asientosJ := Num (Inventario.asientosDisponibles ev);
     precioJ := Inventario.precio ev |}.

Record EstadoJ : Type := {
  redisConnectedJ : bool;
  redisStoreJ : gmap string eventoJ;
  inventarioMemoriaJ : gmap string eventoJ
}.

Definition con_redisConnectedJ (st : EstadoJ) (b : bool) : EstadoJ :=
  {| redisConnectedJ := b; redisStoreJ := redisStoreJ st;
     inventarioMemoriaJ := inventarioMemoriaJ st |}.

Definition con_redisStoreJ (st : EstadoJ) (m : gmap string eventoJ) : EstadoJ :=
  {| redisConnectedJ := redisConnectedJ st; redisStoreJ := m;
     inventarioMemoriaJ := inventarioMemoriaJ st |}.

Definition con_inventarioMemoriaJ (st : EstadoJ) (m : gmap string eventoJ) : EstadoJ :=
  {| redisConnectedJ := redisConnectedJ st; redisStoreJ := redisStoreJ st;
     inventarioMemoriaJ := m |}.

Definition estado_a_json (st : Inventario.Estado) : EstadoJ :=
  {| redisConnectedJ := Inventario.redisConnected st;
     redisStoreJ := a_json <$> Inventario.redisStore st;
     inventarioMemoriaJ := a_json <$> Inventario.inventarioMemoria st |}.

(** The state [inicializarInventario] leaves. *)
Definition inicialJ (conectado : bool) : EstadoJ :=
  {| redisConnectedJ := conectado;
     redisStoreJ :=
       if conectado
       then foldl (fun m ev => <[Inventario.clave (Inventario.id ev) := a_json ev]> m)
              ∅ Inventario.eventos
       else ∅;
     inventarioMemoriaJ :=
       foldl (fun m ev => <[Inventario.id ev := a_json ev]> m) ∅ Inventario.eventos |}.

Inductive RespuestaJ : Type :=
| Json200J (asientosDisponibles : valor)
| JsonErrorJ (status : Z) (error : string).

Definition respuesta_a_json (r : Inventario.Respuesta) : RespuestaJ :=
  match r with
  | Inventario.Json200 n => Json200J (Num n)
  | Inventario.JsonError s e => JsonErrorJ s e
  end.

(** [!cantidad || cantidad <= 0]. *)
Definition cantidad_invalidaJ (cantidad : option valor) : option bool :=
  match cantidad with
  | None => Some true
  | Some c => if negb (truthy c) then Some true else no_positivo c
  end.

(** The in-memory branch of reservar (lines 347-372, again at 417-442):
    the test [evento.asientosDisponibles < cantidad], then [-=]. *)
Definition reservarEnMemoriaJ (st : EstadoJ) (eventoId : string) (c : valor)
  : option (EstadoJ * RespuestaJ) :=
  match inventarioMemoriaJ st !! eventoId with
  | None => Some (st, JsonErrorJ 404 "Event not found")
  | Some ev =>
      falta ← menor (asientosJ ev) c;
      if falta : bool then Some (st, JsonErrorJ 409 "Insufficient seats")
      else
        n ← resta (asientosJ ev) c;
        Some (con_inventarioMemoriaJ st
                (<[eventoId := con_asientosJ ev (Num n)]> (inventarioMemoriaJ st)),
              Json200J (Num n))
  end.

(** [tonumber(ARGV[1])] for the text the Redis client sends for [cantidad]:
    a number arrives as its decimal numeral, a string as it is.  [None]:
    not followed (no numeral). *)
Definition argumento (c : valor) : option Z :=
  match c with
  | Num z => Some z
  | Str (String a s) => StringToNumber (String a s)
  | _ => None
  end.

(** The Lua script (lines 376-395).  Lua compares numbers with numbers
    only: a stored [asientosDisponibles] that is not a number makes the
    comparison raise, the script then ends with an error reply and has
    written nothing. *)
Definition scriptJ (store : gmap string eventoJ) (key : string) (c : valor)
  : option (gmap string eventoJ * outcome string valor) :=
  match store !! key with
  | None => Some (store, Rejected "Event not found")
  | Some eventoData =>
      cantidad ← argumento c;
      match asientosJ eventoData with
      | Num a =>
          if a <? cantidad then Some (store, Rejected "Insufficient seats")
          else Some (<[key := con_asientosJ eventoData (Num (a - cantidad))]> store,
                     Resolved (Num (a - cantidad)))
      | _ => Some (store, Rejected "attempt to compare")
      end
  end.

(** POST /inventario/:eventoId/reservar. *)
Definition reservarJ (st : EstadoJ) (eventoId : string) (cantidad : option valor)
  (redis_up : bool) : option (EstadoJ * RespuestaJ) :=
  invalida ← cantidad_invalidaJ cantidad;
  match cantidad with
  | Some c =>
      if invalida : bool then Some (st, JsonErrorJ 400 "Invalid quantity")
      else if negb (redisConnectedJ st) then reservarEnMemoriaJ st eventoId c
      else
        r ← (if redis_up then scriptJ (redisStoreJ st) (Inventario.clave eventoId) c
             else Some (redisStoreJ st, Rejected "Connection is closed."));
        match r with
        | (store', Resolved result) => Some (con_redisStoreJ st store', Json200J result)
        | (_, Rejected _) => reservarEnMemoriaJ (con_redisConnectedJ st false) eventoId c
        end
  | None => Some (st, JsonErrorJ 400 "Invalid quantity")
  end.

(** The in-memory branch of liberar (lines 495-504): [+=]. *)
Definition liberarEnMemoriaJ (st : EstadoJ) (eventoId : string) (c : valor)
  : EstadoJ * RespuestaJ :=
  match inventarioMemoriaJ st !! eventoId with
  | None => (st, JsonErrorJ 404 "Event not found")
  | Some ev =>
      let ev' := con_asientosJ ev (suma (asientosJ ev) c) in
      (con_inventarioMemoriaJ st (<[eventoId := ev']> (inventarioMemoriaJ st)),
       Json200J (asientosJ ev'))
  end.

(** After [await redis.set] (line 488): the write landed or the call threw
    (line 489), then the test of line 495. *)
Definition liberar_tras_setJ (st : EstadoJ) (eventoId : string) (c : valor) (ev' : eventoJ)
  (set_up : bool) : EstadoJ * RespuestaJ :=
  let st1 :=
    if set_up
    then con_redisStoreJ st (<[Inventario.clave eventoId := ev']> (redisStoreJ st))
    else con_redisConnectedJ st false in
  if negb (redisConnectedJ st1) then liberarEnMemoriaJ st1 eventoId c
  else (st1, Json200J (asientosJ ev')).

(** POST /inventario/:eventoId/liberar, when no other request interleaves. *)
Definition liberarJ (st : EstadoJ) (eventoId : string) (cantidad : option valor)
  (get_up set_up : bool) : option (EstadoJ * RespuestaJ) :=
  invalida ← cantidad_invalidaJ cantidad;
  match cantidad with
  | Some c =>
      if invalida : bool then Some (st, JsonErrorJ 400 "Invalid quantity")
      else if redisConnectedJ st then
        if get_up then
          match redisStoreJ st !! Inventario.clave eventoId with
          | None => Some (st, JsonErrorJ 404 "Event not found")
          | Some eventoData =>
              Some (liberar_tras_setJ st eventoId c
                      (con_asientosJ eventoData (suma (asientosJ eventoData) c)) set_up)
          end
        else Some (liberarEnMemoriaJ (con_redisConnectedJ st false) eventoId c)
      else Some (liberarEnMemoriaJ st eventoId c)
  | None => Some (st, JsonErrorJ 400 "Invalid quantity")
  end.

(** The seats an event has in a store. *)
Definition asientos_en (m : gmap string eventoJ) (k : string) : option valor :=
  asientosJ <$> m !! k.

(** *** Interleaved requests

    Handlers run to their next [await]; between two awaits of one request
    any other request may run.  The effects on the stores are therefore
    these atomic ones, in any order (the system starts once
    [inicializarInventario] has run).  [pendientesJ] holds, for each liberar
    request suspended at [await redis.set], the event it read and already
    incremented. *)
Record SistemaJ : Type := {
  estadoJ : EstadoJ;
  pendientesJ : list (string * eventoJ)
}.

(** The atomic effects of the requests whose quantity satisfies [P] and
    passes the test of lines 342-344: [redis.eval] running the script; the
    in-memory branch of reservar, directly or after the catch; [redis.get]
    of a liberar request answered, the copy incremented; its [redis.set]
    landing; the in-memory branch of liberar, directly or after a catch;
    the ['error'] listener of the Redis client (lines 194-199). *)
Inductive pasoJ (P : valor -> Prop) : SistemaJ -> SistemaJ -> Prop :=
| pasoJ_script s eventoId c store' r :
    P c -> cantidad_invalidaJ (Some c) = Some false ->
    scriptJ (redisStoreJ (estadoJ s)) (Inventario.clave eventoId) c = Some (store', r) ->
    pasoJ P s {| estadoJ := con_redisStoreJ (estadoJ s) store';
                 pendientesJ := pendientesJ s |}
| pasoJ_reservar_memoria s eventoId c (caida : bool) st' r :
    P c -> cantidad_invalidaJ (Some c) = Some false ->
    reservarEnMemoriaJ (if caida then con_redisConnectedJ (estadoJ s) false else estadoJ s)
      eventoId c = Some (st', r) ->
    pasoJ P s {| estadoJ := st'; pendientesJ := pendientesJ s |}
| pasoJ_get s eventoId c eventoData :
    P c -> cantidad_invalidaJ (Some c) = Some false ->
    redisStoreJ (estadoJ s) !! Inventario.clave eventoId = Some eventoData ->
    pasoJ P s {| estadoJ := estadoJ s;
                 pendientesJ :=
                   (eventoId, con_asientosJ eventoData (suma (asientosJ eventoData) c))
                     :: pendientesJ s |}
| pasoJ_set s l1 eventoId ev' l2 :
    pendientesJ s = l1 ++ (eventoId, ev') :: l2 ->
    pasoJ P s {| estadoJ := con_redisStoreJ (estadoJ s)
                              (<[Inventario.clave eventoId := ev']> (redisStoreJ (estadoJ s)));
                 pendientesJ := l1 ++ l2 |}
| pasoJ_liberar_memoria s eventoId c (caida : bool) :
    P c -> cantidad_invalidaJ (Some c) = Some false ->
    pasoJ P s {| estadoJ := (liberarEnMemoriaJ
                               (if caida then con_redisConnectedJ (estadoJ s) false
                                else estadoJ s) eventoId c).1;
                 pendientesJ := pendientesJ s |}
| pasoJ_error s :
    pasoJ P s {| estadoJ := con_redisConnectedJ (estadoJ s) false;
                 pendientesJ := pendientesJ s |}.

Definition alcanzableJ (P : valor -> Prop) (conectado : bool) (s : SistemaJ) : Prop :=
  rtc (pasoJ P) {| estadoJ := inicialJ conectado; pendientesJ := [] |} s.

(** Seats of every copy of an event: in Redis, in memory, in flight. *)
Definition todos_los_asientosJ (s : SistemaJ) (v : valor) : Prop :=
  (exists k ev, redisStoreJ (estadoJ s) !! k = Some ev /\ asientosJ ev = v) \/
  (exists k ev, inventarioMemoriaJ (estadoJ s) !! k = Some ev /\ asientosJ ev = v) \/
  (exists k ev, (k, ev) ∈ pendientesJ s /\ asientosJ ev = v).

Definition entero_no_negativo (v : valor) : Prop := exists n, v = Num n /\ 0 <= n.

(** Every copy of every event holds an integer that is not negative. *)
Definition enteros_no_negativos (s : SistemaJ) : Prop :=
  map_Forall (fun _ ev => entero_no_negativo (asientosJ ev)) (redisStoreJ (estadoJ s)) /\
  map_Forall (fun _ ev => entero_no_negativo (asientosJ ev)) (inventarioMemoriaJ (estadoJ s)) /\
  Forall (fun p => entero_no_negativo (asientosJ p.2)) (pendientesJ s).

(** Every record of both stores holds an integer. *)
Definition estado_entero (st : EstadoJ) : Prop :=
  map_Forall (fun _ ev => es_entero (asientosJ ev)) (redisStoreJ st) /\
  map_Forall (fun _ ev => es_entero (asientosJ ev)) (inventarioMemoriaJ st).

End InventarioJson.



(* --------------------------------------------------------------------- *)
(** ** Reservations service  (services/reservas/index.js)                 *)
(* --------------------------------------------------------------------- *)
Module Reservas.

(** A JavaScript [Error] as the handlers inspect it: [message], [code] and
    [response.status] (the last two are set by the HTTP client). *)
Record JsError : Type := {
  message : string;
  code : option string;
  response_status : option Z
}.

Definition Error (msg : string) : JsError :=
  {| message := msg; code := None; response_status := None |}.

(** *** consultarInventario and its cache (lines 52-99) *)

(** [response.data] of GET /inventario/:eventoId; [fromCache] is absent
    (falsy) on a live answer. *)
Record Inventario : Type := {
  eventoId : string;
  nombre : string;
  asientosDisponibles : Z;
  precio : Z;
  disponible : bool;
  fromCache : bool
}.

(** [{ ...cached.data, fromCache: true }]. *)
Definition con_fromCache (d : Inventario) : Inventario :=
  {| eventoId := eventoId d; nombre := nombre d;
     asientosDisponibles := asientosDisponibles d; precio := precio d;
     disponible := disponible d; fromCache := true |}.

Record CacheEntry : Type := {
  data : Inventario;
  timestamp : Z
}.

Definition INVENTARIO_CACHE_TTL : Z := 10 * 60 * 1000.

(** [live] is the outcome of [inventarioClient.get], [now] is [Date.now()]. *)
Definition consultarInventario (inventarioCache : gmap string CacheEntry)
  (evId : string) (live : outcome JsError Inventario) (now : Z)
  : gmap string CacheEntry * outcome JsError Inventario :=
  match live with
  | Resolved d =>
      (<[evId := {| data := d; timestamp := now |}]> inventarioCache, Resolved d)
  | Rejected _ =>
      let sin_cache :=
        Error ("Inventory service unavailable and no valid cache for " +:+ evId) in
      match inventarioCache !! evId with
      | Some cached =>
          let age := now - timestamp cached in
          if age <? INVENTARIO_CACHE_TTL
          then (inventarioCache, Resolved (con_fromCache (data cached)))
          else (inventarioCache, Rejected sin_cache)
      | None => (inventarioCache, Rejected sin_cache)
      end
  end.

(** *** The payment client (lines 101-137)

    axios and opossum are libraries outside the repository; what is modelled
    of them is their timeout: a call that takes longer than the configured
    number of milliseconds is rejected when that time has passed. *)

(** The options handed to [createResilientHttpClient]: the axios timeout,
    the retry count and the breaker's own timeout. *)
Record ClientOptions : Type := {
  timeout : Z;
  retries : Z;
  breaker_timeout : Z
}.

(** Lines 103-112. *)
Definition pagosClient : ClientOptions :=
  {| timeout := 25000; retries := 1; breaker_timeout := 25000 |}.

(** Line 101: [new Bulkhead(10, 'pagos-bulkhead')]. *)
Definition pagosBulkhead : Bulkhead.t string := Bulkhead.new 10.

(** A peer that answers every request after [latency] milliseconds. *)
Record Peer (A : Type) : Type := {
  latency : Z;
  reply : outcome JsError A
}.
Arguments latency {A} p.
Arguments reply {A} p.

Definition reply_error {A : Type} (p : Peer A) : JsError :=
  match reply p with
  | Rejected e => e
  | Resolved _ => Error "resolved"
  end.

(** One [client.request(config)]: the ECONNABORTED rejection of axios if the
    answer takes longer than the timeout, else the answer.  The world is
    the clock. *)
Definition request {A : Type} (c : ClientOptions) (p : Peer A) (clock : Z)
  : Z * outcome JsError A :=
  if timeout c <? latency p
  then (clock + timeout c,
        Rejected {| message := "timeout of " +:+ pretty (timeout c) +:+ "ms exceeded";
                    code := Some "ECONNABORTED"; response_status := None |})
  else (clock + latency p, reply p).

(** The options of the call of [retryWithBackoff] at resilience-patterns.js,
    lines 123-129: [maxRetries: retries], the rest by default. *)
Definition opciones_reintento (c : ClientOptions) : Retry.Options :=
  {| Retry.maxRetries := retries c;
     Retry.initialDelay := Retry.initialDelay Retry.defaults;
     Retry.maxDelay := Retry.maxDelay Retry.defaults;
     Retry.factor := Retry.factor Retry.defaults |}.

(** [breaker.fire(config)] on a closed breaker (resilience-patterns.js,
    lines 121-135): the request under [retryWithBackoff] with
    [maxRetries: retries], cut off by the breaker's timeout. *)
Definition fire {A : Type} (c : ClientOptions) (p : Peer A) (clock : Z)
  : Z * outcome JsError A :=
  let r := Retry.retryWithBackoff (request c p) (fun d t => t + d)
             (opciones_reintento c) clock in
  if breaker_timeout c <? Retry.world r - clock then
    (clock + breaker_timeout c,
     Rejected {| message := "Timed out after " +:+ pretty (breaker_timeout c) +:+ "ms";
                 code := Some "ETIMEDOUT"; response_status := None |})
  else
    (Retry.world r,
     match Retry.result r with
     | Resolved a => Resolved a
     | Rejected (Some e) => Rejected e
     | Rejected None => Rejected (Error "undefined")
     end).

Record PagoData : Type := {
  transaccionId : string
}.

(** [procesarPago] (lines 114-137) once the bulkhead has started the task:
    the [try]/[catch] around [pagosClient.post]. *)
Definition procesarPago_tarea (c : ClientOptions) (p : Peer PagoData) (clock : Z)
  : Z * outcome JsError PagoData :=
  match fire c p clock with
  | (t, Resolved d) => (t, Resolved d)
  | (t, Rejected error) =>
      if bool_decide (code error = Some "ECONNABORTED") || includes (message error) "timeout"
      then (t, Rejected (Error "TIMEOUT_PAGO: Payment taking longer than expected. Please verify status later."))
      else (t, Rejected error)
  end.

(** [procesarPago] through the bulkhead [b]: [None] while the task waits in
    the queue, else the clock and the outcome when the task settles. *)
Definition procesarPago (b : Bulkhead.t string) (reservaId : string)
  (c : ClientOptions) (p : Peer PagoData) (clock : Z)
  : Bulkhead.t string * option (Z * outcome JsError PagoData) :=
  match Bulkhead.execute b reservaId with
  | (b', Bulkhead.Started) =>
      (Bulkhead.settle b' reservaId, Some (procesarPago_tarea c p clock))
  | (b', Bulkhead.Queued) => (b', None)
  end.

(** *** The reservation records and the handlers *)

(** A record of the [reservas] map; dates are clock readings. *)
Record Reserva : Type := {
  id : string;
  r_eventoId : string;
  eventoNombre : string;
  r_asientos : Z;
  r_usuario : string;
  monto : Z;
  r_metodoPago : string;
  r_transaccionId : string;
  estado : string;
  r_timestamp : Z;
  fechaCancelacion : option Z
}.

(** The module-level maps [inventarioCache] and [reservas]. *)
Record Servicio : Type := {
  inventarioCache : gmap string CacheEntry;
  reservas : gmap string Reserva
}.

Definition servicio_inicial : Servicio :=
  {| inventarioCache := ∅; reservas := ∅ |}.

(** [req.body] of POST /reservas. *)
Record Peticion : Type := {
  p_eventoId : string;
  asientos : Z;
  usuario : string;
  metodoPago : string
}.

(** What the collaborators do during one POST /reservas. *)
Record Entorno : Type := {
  reservaId : string;                              (** [uuidv4()] *)
  ahora : Z;                                       (** the clock *)
  redlock : bool;                                  (** [redlock] is not [null] *)
  acquire : outcome JsError unit;                  (** [redlock.acquire] *)
  release : outcome JsError unit;                  (** each [lock.release()] *)
  get_inventario : outcome JsError Inventario;     (** [inventarioClient.get] *)
  post_reservar : outcome JsError unit;            (** POST .../reservar *)
  pago : outcome JsError PagoData;                 (** [procesarPago] *)
  post_liberar : outcome JsError unit;             (** POST .../liberar *)
  post_notificar : outcome JsError unit            (** POST /notificaciones/enviar *)
}.

Inductive Contestacion : Type :=
| Exito (status : Z) (reserva : Reserva)
| Fallo (status : Z) (error : string).

Definition status_de (r : Contestacion) : Z :=
  match r with
  | Exito s _ => s
  | Fallo s _ => s
  end.

(** External calls, in the order the handler makes them. *)
Inductive Accion : Type :=
| AcquireLock
| ReleaseLock
| GetInventario
| PostReservar (cantidad : Z)
| Pago (monto : Z)
| PostLiberar (cantidad : Z)
| GuardarReserva (id : string)
| Notificar.

(** The handler's progress: it goes on, it has answered ([return res...]),
    or it has thrown. *)
Inductive flujo (A : Type) : Type :=
| Sigue (a : A)
| Responde (r : Contestacion)
| Lanza (e : JsError).
Arguments Sigue {A} a.
Arguments Responde {A} r.
Arguments Lanza {A} e.

Record Ejec : Type := {
  servicio : Servicio;
  acciones : list Accion
}.

Definition M (A : Type) : Type := Ejec -> Ejec * flujo A.

Definition ret {A : Type} (a : A) : M A := fun s => (s, Sigue a).

Definition bind {A B : Type} (m : M A) (k : A -> M B) : M B :=
  fun s =>
    match m s with
    | (s', Sigue a) => k a s'
    | (s', Responde r) => (s', Responde r)
    | (s', Lanza e) => (s', Lanza e)
    end.

Definition responde {A : Type} (r : Contestacion) : M A := fun s => (s, Responde r).

Definition lanza {A : Type} (e : JsError) : M A := fun s => (s, Lanza e).

(** [try { m } catch (error) { h error }]: a [return] inside [m] leaves the
    function, an exception goes to [h]. *)
Definition intenta {A : Type} (m : M A) (h : JsError -> M A) : M A :=
  fun s =>
    match m s with
    | (s', Lanza e) => h e s'
    | other => other
    end.

Definition accion (a : Accion) : M unit :=
  fun s => ({| servicio := servicio s; acciones := acciones s ++ [a] |}, Sigue tt).

Definition espera {A : Type} (o : outcome JsError A) : M A :=
  match o with
  | Resolved a => ret a
  | Rejected e => lanza e
  end.

Notation "x <- m ;; k" := (bind m (fun x => k))
  (at level 100, m at next level, right associativity).
Notation "m ;;; k" := (bind m (fun _ => k))
  (at level 100, right associativity).

(** What V8 throws for [lock.release()] when [lock] is [null]. *)
Definition TypeError_release : JsError :=
  Error "Cannot read properties of null (reading 'release')".

(** [await lock.release()]. *)
Definition lock_release (env : Entorno) (lock : option unit) : M unit :=
  match lock with
  | None => lanza TypeError_release
  | Some _ => accion ReleaseLock ;;; espera (release env)
  end.

(** [if (lock) await lock.release()]. *)
Definition si_lock_release (env : Entorno) (lock : option unit) : M unit :=
  match lock with
  | None => ret tt
  | Some _ => lock_release env lock
  end.

(** The call of [consultarInventario] at line 211. *)
Definition consulta (env : Entorno) (req : Peticion) : M Inventario :=
  accion GetInventario ;;;
  fun s =>
    let '(cache', r) :=
      consultarInventario (inventarioCache (servicio s)) (p_eventoId req)
        (get_inventario env) (ahora env) in
    espera r {| servicio := {| inventarioCache := cache';
                               reservas := reservas (servicio s) |};
                acciones := acciones s |}.

(** Lines 308-321. *)
Definition nueva_reserva (env : Entorno) (req : Peticion) (inventario : Inventario)
  (pagoData : PagoData) : Reserva :=
  {| id := reservaId env;
     r_eventoId := p_eventoId req;
     eventoNombre := nombre inventario;
     r_asientos := asientos req;
     r_usuario := usuario req;
     monto := precio inventario * asientos req;
     r_metodoPago := metodoPago req;
     r_transaccionId := transaccionId pagoData;
     estado := "confirmada";
     r_timestamp := ahora env;
     fechaCancelacion := None |}.

(** [reservas.set(reservaId, reserva)]. *)
Definition guardar (r : Reserva) : M unit :=
  accion (GuardarReserva (id r)) ;;;
  fun s =>
    ({| servicio := {| inventarioCache := inventarioCache (servicio s);
                       reservas := <[id r := r]> (reservas (servicio s)) |};
        acciones := acciones s |}, Sigue tt).

(** The body of the outer [try] after the lock step: lines 207-348. *)
Definition cuerpo (env : Entorno) (req : Peticion) (lock : option unit) : M Contestacion :=
  inventario <-
    intenta
      (inv <- consulta env req ;;
       if negb (disponible inv) || (asientosDisponibles inv <? asientos req)
       then si_lock_release env lock ;;; responde (Fallo 409 "Seats not available")
       else ret inv)
      (fun _ =>
         si_lock_release env lock ;;;
         responde (Fallo 503 "Inventory service unavailable")) ;;
  intenta
    (accion (PostReservar (asientos req)) ;;; espera (post_reservar env))
    (fun error =>
       lock_release env lock ;;;
       if bool_decide (response_status error = Some 409)
       then responde (Fallo 409 "Seats no longer available")
       else responde (Fallo 500 "Error reserving seats")) ;;;
  let monto := precio inventario * asientos req in
  pagoData <-
    intenta
      (accion (Pago monto) ;;; espera (pago env))
      (fun error =>
         intenta
           (accion (PostLiberar (asientos req)) ;;; espera (post_liberar env))
           (fun _ => ret tt) ;;;
         si_lock_release env lock ;;;
         if includes (message error) "TIMEOUT_PAGO"
         then responde (Fallo 408 "Payment processing timeout")
         else responde (Fallo 402 "Payment rejected")) ;;
  let reserva := nueva_reserva env req inventario pagoData in
  guardar reserva ;;;
  intenta (accion Notificar ;;; espera (post_notificar env)) (fun _ => ret tt) ;;;
  si_lock_release env lock ;;;
  ret (Exito 201 reserva).

(** The outer [catch]: lines 350-373. *)
Definition catch_externo (env : Entorno) (lock : option unit) (error : JsError)
  : M Contestacion :=
  match lock with
  | Some _ => intenta (lock_release env lock) (fun _ => ret tt)
  | None => ret tt
  end ;;;
  if includes (message error) "lock"
  then responde (Fallo 409 "Reservation in progress")
  else responde (Fallo 500 "Error processing reservation").

(** The handler in the monad: the lock step (lines 199-205), then the body
    under the outer [catch], which sees the [lock] variable as assigned. *)
Definition post_reservas_M (env : Entorno) (req : Peticion) : M Contestacion :=
  if redlock env then
    lock <-
      intenta
        (accion AcquireLock ;;; espera (acquire env) ;;; ret (Some tt))
        (fun error => catch_externo env None error ;;; ret None) ;;
    intenta (cuerpo env req lock) (catch_externo env lock)
  else intenta (cuerpo env req None) (catch_externo env None).

Definition respuesta_de (f : flujo Contestacion) : Contestacion :=
  match f with
  | Sigue r => r
  | Responde r => r
  | Lanza e => Fallo 0 (message e)   (** an unhandled rejection: no answer *)
  end.

(** POST /reservas: the new state, the external calls made, the answer. *)
Definition post_reservas (st : Servicio) (req : Peticion) (env : Entorno)
  : Servicio * list Accion * Contestacion :=
  let '(s, f) := post_reservas_M env req {| servicio := st; acciones := [] |} in
  (servicio s, acciones s, respuesta_de f).

(** What the payment and inventory peers do during one DELETE. *)
Record EntornoCancelacion : Type := {
  c_ahora : Z;
  post_reembolsar : outcome JsError unit;
  c_post_liberar : outcome JsError unit
}.

(** The two assignments of lines 400-401 on the stored object. *)
Definition cancelar (r : Reserva) (now : Z) : Reserva :=
  {| id := id r; r_eventoId := r_eventoId r; eventoNombre := eventoNombre r;
     r_asientos := r_asientos r; r_usuario := r_usuario r; monto := monto r;
     r_metodoPago := r_metodoPago r; r_transaccionId := r_transaccionId r;
     estado := "cancelada"; r_timestamp := r_timestamp r;
     fechaCancelacion := Some now |}.

(** DELETE /reservas/:id (lines 376-415). *)
Definition delete_reserva (st : Servicio) (rid : string) (env : EntornoCancelacion)
  : Servicio * Contestacion :=
  match reservas st !! rid with
  | None => (st, Fallo 404 "Reservation not found")
  | Some reserva =>
      if bool_decide (estado reserva = "cancelada")
      then (st, Fallo 409 "Reservation already cancelled")
      else
        match post_reembolsar env, c_post_liberar env with
        | Resolved _, Resolved _ =>
            let r' := cancelar reserva (c_ahora env) in
            ({| inventarioCache := inventarioCache st;
                reservas := <[rid := r']> (reservas st) |}, Exito 200 r')
        | _, _ => (st, Fallo 500 "Error cancelling reservation")
        end
  end.

(** GET /reservas: [Array.from(reservas.values())] (in key order here, in
    insertion order in JavaScript). *)
Definition get_reservas (st : Servicio) : list Reserva :=
  (map_to_list (reservas st)).*2.

(** The requests that change the service state.  A DELETE suspended at one
    of its awaits, after the test of line 387, may find the record already
    cancelled by another DELETE when it resumes and assigns again: that is
    [transicion_cancelacion_tardia]. *)
Inductive transicion : Servicio -> Servicio -> Prop :=
| transicion_post st req env : transicion st (post_reservas st req env).1.1
| transicion_delete st rid env : transicion st (delete_reserva st rid env).1
| transicion_cancelacion_tardia st rid r now :
    reservas st !! rid = Some r ->
    transicion st {| inventarioCache := inventarioCache st;
               reservas := <[rid := cancelar r now]> (reservas st) |}.

Definition accesible (st : Servicio) : Prop := rtc transicion servicio_inicial st.

(** GET /reservas/:id (lines 178-187): [None] is the 404 answer. *)
Definition get_reserva (st : Servicio) (rid : string) : option Reserva :=
  reservas st !! rid.

(** Lines 54-63. *)
Definition inventarioClient : ClientOptions :=
  {| timeout := 3000; retries := 2; breaker_timeout := 3000 |}.

(** What axios makes of an answer of the inventory service: a status
    outside 2xx rejects, with the status in [error.response]. *)
Definition axios_inventario (r : Inventario.Respuesta) : outcome JsError Z :=
  match r with
  | Inventario.Json200 n => Resolved n
  | Inventario.JsonError status _ =>
      Rejected {| message := "Request failed with status code " +:+ pretty status;
                  code := Some (if status <? 500 then "ERR_BAD_REQUEST"
                                else "ERR_BAD_RESPONSE");
                  response_status := Some status |}
  end.

(** What the handler keeps of [await inventarioClient.post(...)] when the
    call is [breaker.fire] on a closed breaker: that it resolved, or the
    error it rejected with. *)
Definition sin_datos {A : Type} (r : Z * outcome JsError A) : outcome JsError unit :=
  match r.2 with
  | Resolved _ => Resolved tt
  | Rejected e => Rejected e
  end.

(** The calls among [acc] that change the inventory. *)
Definition mutaciones_inventario (acc : list Accion) : list Accion :=
  omap (fun a => match a with
                 | PostReservar _ | PostLiberar _ => Some a
                 | _ => None
                 end) acc.

(** Every stored record is confirmed or cancelled. *)
Definition estados_validos (m : gmap string Reserva) : Prop :=
  map_Forall (fun _ r => estado r = "confirmada" \/ estado r = "cancelada") m.

(** Scenario C of the specification: the payment service sleeps 20 s in its
    latency middleware, then between 0.5 s and 1.5 s in the handler (here
    0.5 s), and approves. *)
Definition pasarela_lenta : Peer PagoData :=
  {| latency := 20000 + 500; reply := Resolved {| transaccionId := "tx-1" |} |}.

(** A payment service that declines after one second: axios rejects the
    402 answer. *)
Definition pasarela_rechaza : Peer PagoData :=
  {| latency := 1000;
     reply := Rejected {| message := "Request failed with status code 402";
                          code := Some "ERR_BAD_REQUEST";
                          response_status := Some 402 |} |}.

(** An inventory service that has no seat left for the request: it answers
    409 "Insufficient seats" after 5 ms, which axios rejects. *)
Definition inventario_agotado : Peer Z :=
  {| latency := 5;
     reply := Rejected {| message := "Request failed with status code 409";
                          code := Some "ERR_BAD_REQUEST";
                          response_status := Some 409 |} |}.

(** A request for two seats of "evento-1" while every other collaborator
    works and the payment goes through [procesarPago] against [p]. *)
Definition peticion_ejemplo : Peticion :=
  {| p_eventoId := "evento-1"; asientos := 2; usuario := "ana"; metodoPago := "tarjeta" |}.

Definition entorno_ejemplo (p : Peer PagoData) : Entorno :=
  {| reservaId := "r-1";
     ahora := 0;
     redlock := true;
     acquire := Resolved tt;
     release := Resolved tt;
     get_inventario :=
       Resolved {| eventoId := "evento-1"; nombre := "Rock Concert";
                   asientosDisponibles := 100; precio := 50;
                   disponible := true; fromCache := false |};
     post_reservar := Resolved tt;
     pago :=
       match (procesarPago pagosBulkhead "r-1" pagosClient p 0).2 with
       | Some (_, o) => o
       | None => Rejected (Error "queued")
       end;
     post_liberar := Resolved tt;
     post_notificar := Resolved tt |}.

End Reservas.


(* --------------------------------------------------------------------- *)
(** ** Notifications service  (services/reservas/index.js, lines 421-485) *)
(* --------------------------------------------------------------------- *)
Module Notificaciones.

(** [req.body] of POST /notificaciones/enviar. *)
Record Cuerpo : Type := {
  tipo : string;
  destinatario : string;
  asunto : string;
  mensaje : string;
  reservaId : string
}.

Record notificacion : Type := {
  id : Z;
  cuerpo : Cuerpo;
  estado : string;
  timestamp : Z
}.

(** POST /notificaciones/enviar (lines 449-477), from the end of its
    [await]: the record is numbered by the length of the array and pushed. *)
Definition enviar (notificaciones : list notificacion) (b : Cuerpo) (now : Z)
  : list notificacion * notificacion :=
  let n := {| id := Z.of_nat (length notificaciones) + 1; cuerpo := b;
              estado := "enviado"; timestamp := now |} in
  (notificaciones ++ [n], n).

Definition enviar_todas (l : list notificacion) (bs : list (Cuerpo * Z))
  : list notificacion :=
  foldl (fun l b => (enviar l b.1 b.2).1) l bs.

(** Every stored notification carries its position, counted from 1. *)
Definition numeradas (l : list notificacion) : Prop :=
  forall (i : nat) n, l !! i = Some n -> id n = Z.of_nat i + 1.

End Notificaciones.

(* --------------------------------------------------------------------- *)
(** ** Payment service  (services/pagos/index.js, lines 1-196)            *)
(* --------------------------------------------------------------------- *)
Module Pagos.

Record transaccion : Type := {
  id : string;
  reservaId : string;
  monto : Json.valor;
  metodoPago : string;
  usuario : string;
  estado : string;
  timestamp : Z;
  motivoReembolso : option string;
  fechaReembolso : option Z
}.

(** [req.body] of POST /pagos/procesar; [None] is an absent field.  The
    handler tests no type: [monto] is followed on every value of
    [Json.valor], the three other fields on strings. *)
Record CuerpoPago : Type := {
  b_reservaId : option string;
  b_monto : option Json.valor;
  b_metodoPago : option string;
  b_usuario : option string
}.

Inductive RespuestaPago : Type :=
| PagoOk (t : transaccion)
| PagoFallo (status : Z) (error : string).

(** POST /pagos/procesar (lines 47-108).  [exito] is the draw
    [Math.random() > 0.05], [transaccionId] is [uuidv4()].  A field is
    missing when it is absent or falsy; then comes [monto <= 0].  The
    result [None]: [monto] is a string that is no decimal numeral, and the
    model does not follow the handler. *)
Definition procesar (transacciones : gmap string transaccion) (b : CuerpoPago)
  (exito : bool) (transaccionId : string) (now : Z)
  : option (gmap string transaccion * RespuestaPago) :=
  match b_reservaId b, b_monto b, b_metodoPago b, b_usuario b with
  | Some r, Some m, Some mp, Some u =>
      if bool_decide (r = EmptyString) || negb (Json.truthy m)
         || bool_decide (mp = EmptyString) || bool_decide (u = EmptyString)
      then Some (transacciones,
                 PagoFallo 400 "Missing required fields: reservaId, monto, metodoPago, usuario")
      else
        no_positivo ← Json.no_positivo m;
        if no_positivo : bool then Some (transacciones, PagoFallo 400 "Invalid amount")
        else if negb exito then Some (transacciones, PagoFallo 402 "Payment rejected")
        else
          let t := {| id := transaccionId; reservaId := r; monto := m; metodoPago := mp;
                      usuario := u; estado := "completado"; timestamp := now;
                      motivoReembolso := None; fechaReembolso := None |} in
          Some (<[transaccionId := t]> transacciones, PagoOk t)
  | _, _, _, _ =>
      Some (transacciones,
            PagoFallo 400 "Missing required fields: reservaId, monto, metodoPago, usuario")
  end.

(** The three assignments of lines 149-151. *)
Definition reembolsado (t : transaccion) (motivo : option string) (now : Z) : transaccion :=
  {| id := id t; reservaId := reservaId t; monto := monto t; metodoPago := metodoPago t;
     usuario := usuario t; estado := "reembolsado"; timestamp := timestamp t;
     motivoReembolso := motivo; fechaReembolso := Some now |}.

(** POST /pagos/reembolsar up to its [await sleep(500)] (lines 133-147):
    the answer if the request ends there, else the transaction it found and
    goes on with. *)
Definition reembolsar_comprueba (transacciones : gmap string transaccion)
  (transaccionId : string) : RespuestaPago + transaccion :=
  match transacciones !! transaccionId with
  | None => inl (PagoFallo 404 "Transaction not found")
  | Some t =>
      if bool_decide (estado t = "reembolsado")
      then inl (PagoFallo 409 "This transaction already has a refund")
      else inr t
  end.

(** The same request after the sleep (lines 149-161): the assignments, on
    the object found before the sleep, and the answer.  The object is the
    one the map holds under its id, with whatever another request has
    assigned to it meanwhile; [None] cannot occur after
    [reembolsar_comprueba] found it, as nothing is ever removed from the
    map. *)
Definition reembolsar_asigna (transacciones : gmap string transaccion)
  (transaccionId : string) (motivo : option string) (now : Z)
  : option (gmap string transaccion * RespuestaPago) :=
  t ← transacciones !! transaccionId;
  Some (<[transaccionId := reembolsado t motivo now]> transacciones,
        PagoOk (reembolsado t motivo now)).

(** POST /pagos/reembolsar (lines 131-167) when no other request runs during
    its sleep. *)
Definition reembolsar (transacciones : gmap string transaccion) (transaccionId : string)
  (motivo : option string) (now : Z) : gmap string transaccion * RespuestaPago :=
  match transacciones !! transaccionId with
  | None => (transacciones, PagoFallo 404 "Transaction not found")
  | Some t =>
      if bool_decide (estado t = "reembolsado")
      then (transacciones, PagoFallo 409 "This transaction already has a refund")
      else
        let t' := reembolsado t motivo now in
        (<[transaccionId := t']> transacciones, PagoOk t')
  end.

(** The requests that change the [transacciones] map: a payment, a refund
    that nothing overlaps, and the assignments of a refund that resumes
    after its sleep whatever has happened meanwhile. *)
Inductive paso_pagos : gmap string transaccion -> gmap string transaccion -> Prop :=
| paso_procesar m b exito tid now m' r :
    procesar m b exito tid now = Some (m', r) -> paso_pagos m m'
| paso_reembolsar m tid motivo now : paso_pagos m (reembolsar m tid motivo now).1
| paso_reembolso_tardio m tid motivo now m' r :
    reembolsar_asigna m tid motivo now = Some (m', r) -> paso_pagos m m'.

(** Every stored transaction sits under its own id, has an amount that
    passed the two tests of the handler, and is completed or refunded. *)
Definition transacciones_validas (m : gmap string transaccion) : Prop :=
  map_Forall (fun k t => id t = k /\
                         Json.truthy (monto t) = true /\
                         Json.no_positivo (monto t) = Some false /\
                         (estado t = "completado" \/ estado t = "reembolsado")) m.

(** The latency switch: the constants [SIMULAR_LATENCIA] and [LATENCIA_MS]
    are read from the environment once, when the module loads (lines
    19-20); the middleware of lines 28-35 uses the constants; POST
    /admin/simular-latencia (lines 175-191) assigns [process.env]. *)
Record Latencia : Type := {
  SIMULAR_LATENCIA : bool;
  LATENCIA_MS : Z;
  env_SIMULAR_LATENCIA : string;
  env_LATENCIA_MS : option Z
}.

(** [parseInt(process.env.LATENCIA_MS || '20000', 10)], the variable holding
    a number when it is set. *)
Definition arranque_pagos (env_simular : string) (env_ms : option Z) : Latencia :=
  {| SIMULAR_LATENCIA := bool_decide (env_simular = "true");
     LATENCIA_MS := default 20000 env_ms;
     env_SIMULAR_LATENCIA := env_simular;
     env_LATENCIA_MS := env_ms |}.

(** The middleware: the milliseconds a request to [path] is held back. *)
Definition middleware_latencia (i : Latencia) (path : string) : Z :=
  if SIMULAR_LATENCIA i && negb (bool_decide (path = "/health"))
     && negb (bool_decide (path = "/admin/simular-latencia"))
  then LATENCIA_MS i
  else 0.

(** POST /admin/simular-latencia: the new state and the fields
    [simulandoLatencia] and [latenciaMs] of the answer ([None] is [NaN]). *)
Definition simular_latencia (i : Latencia) (activar : bool) (latenciaMs : option Z)
  : Latencia * (bool * option Z) :=
  let ms := match latenciaMs with
            | Some v => Some v
            | None => env_LATENCIA_MS i
            end in
  ({| SIMULAR_LATENCIA := SIMULAR_LATENCIA i;
      LATENCIA_MS := LATENCIA_MS i;
      env_SIMULAR_LATENCIA := if activar then "true" else "false";
      env_LATENCIA_MS := ms |},
   (activar, ms)).

End Pagos.


(* ===================================================================== *)
(** * Part II.  Theorems                                                  *)
(* ===================================================================== *)

(* --------------------------------------------------------------------- *)
(** ** retryWithBackoff                                                   *)
(* --------------------------------------------------------------------- *)
Section RetryFacts.
Context {W E A : Type}.
Variable fn : W -> W * outcome E A.
Variable sleep : Z -> W -> W.
Variable o : Retry.Options.

(** With iterations left, the run starts with a call of [fn]. *)
Lemma loop_starts_with_call fuel attempt lastError w :
  exists error rest,
    Retry.trace (Retry.loop fn sleep o (S fuel) attempt lastError w)
    = Retry.EvCall attempt error :: rest.
Proof.
  simpl. destruct (fn w) as [w' [a|e]]; [by eauto|].
  destruct (attempt <? Retry.maxRetries o); simpl; eauto.
Qed.

(** The shape of the trace after a failed call that is not the last one
    allowed: the back-off sleep, then the next call.  The iterations left
    and the loop counter always add up to [maxRetries + 1]. *)
Lemma loop_after_failure fuel : forall attempt lastError w l1 a e l2,
  Z.of_nat fuel = Retry.maxRetries o + 1 - attempt ->
  Retry.trace (Retry.loop fn sleep o fuel attempt lastError w)
  = l1 ++ Retry.EvCall a (Some e) :: l2 ->
  a < Retry.maxRetries o ->
  exists error l3,
    l2 = Retry.EvSleep (Retry.delay o a) :: Retry.EvCall (a + 1) error :: l3.
Proof.
  induction fuel as [|fuel IH]; intros attempt lastError w l1 a e l2 Hfuel Htr Ha.
  - simpl in Htr. by destruct l1.
  - simpl in Htr. destruct (fn w) as [w' [r|e']].
    + simpl in Htr. destruct l1 as [|x [|y l1]]; simplify_eq/=.
    + destruct (attempt <? Retry.maxRetries o) eqn:Hlt; simpl in Htr.
      * apply Z.ltb_lt in Hlt.
        destruct l1 as [|x l1]; simplify_eq/=.
        -- destruct fuel as [|fuel]; [lia|].
           destruct (loop_starts_with_call fuel (a + 1) (Some e)
                       (sleep (Retry.delay o a) w')) as (error & rest & ->).
           eauto.
        -- destruct l1 as [|y l1]; simplify_eq/=.
           eapply IH; [|eassumption|done]. lia.
      * apply Z.ltb_ge in Hlt.
        destruct l1 as [|x l1]; simplify_eq/=; [lia|].
        destruct fuel as [|fuel]; [by destruct l1|lia].
Qed.

(** C6 (as the code has it).  After every failed attempt [k] (counted from
    1) with [k < maxAttempts = maxRetries + 1], the very next thing the run
    does is to sleep exactly [min(initialDelay * factor^(k-1), maxDelay)]
    milliseconds, with no jitter added, and attempt [k+1] follows. *)
Theorem retry_sleep_is_exact_backoff w l1 k e l2 :
  Retry.trace (Retry.retryWithBackoff fn sleep o w)
  = l1 ++ Retry.EvCall (k - 1) (Some e) :: l2 ->
  k < Retry.maxRetries o + 1 ->
  exists error l3,
    l2 = Retry.EvSleep
           (Z.min (Retry.initialDelay o * Retry.factor o ^ (k - 1)) (Retry.maxDelay o))
         :: Retry.EvCall k error :: l3.
Proof.
  intros Htr Hk. unfold Retry.retryWithBackoff in Htr.
  destruct (decide (0 <= Retry.maxRetries o + 1)) as [Hm|Hm].
  - destruct (loop_after_failure (Z.to_nat (Retry.maxRetries o + 1)) 0 None w l1 (k - 1) e l2) as (error & l3 & ->);
      [lia|done|lia|].
    exists error, l3. unfold Retry.delay. by replace (k - 1 + 1) with k by lia.
  - replace (Z.to_nat (Retry.maxRetries o + 1)) with 0%nat in Htr by lia.
    simpl in Htr. by destruct l1.
Qed.

(** C7 (as the code has it).  The wrapper does not look at the error: after
    a failed attempt that is not the last one allowed, whatever it rejected
    with, a further attempt is made. *)
Theorem retry_retries_every_error w l1 a e l2 :
  Retry.trace (Retry.retryWithBackoff fn sleep o w)
  = l1 ++ Retry.EvCall a (Some e) :: l2 ->
  a < Retry.maxRetries o ->
  In (a + 1) (Retry.calls l2).
Proof.
  intros Htr Ha. unfold Retry.retryWithBackoff in Htr.
  destruct (decide (0 <= Retry.maxRetries o + 1)) as [Hm|Hm].
  - destruct (loop_after_failure (Z.to_nat (Retry.maxRetries o + 1)) 0 None w l1 a e l2) as (error & l3 & ->);
      [lia|done|done|].
    simpl. by left.
  - replace (Z.to_nat (Retry.maxRetries o + 1)) with 0%nat in Htr by lia.
    simpl in Htr. by destruct l1.
Qed.

End RetryFacts.

Lemma retry_sleep_is_exact_backoff_witness :
  exists error l3,
    [Retry.EvSleep 1000; Retry.EvCall 1 (Some tt); Retry.EvSleep 2000;
     Retry.EvCall 2 (Some tt); Retry.EvSleep 4000; Retry.EvCall 3 (Some tt)]
    = Retry.EvSleep (Z.min (1000 * 2 ^ (1 - 1)) 10000)
      :: Retry.EvCall (E:=unit) 1 error :: l3.
Proof.
  apply (retry_sleep_is_exact_backoff (Retry.always_rejects tt) Retry.no_sleep Retry.defaults
           tt [] 1 tt); [reflexivity | simpl; lia].
Defined.

(** C6, counterexample.  With the default options and an operation that
    keeps failing, the sleeps are 1000, 2000 and 4000 ms whatever the draw:
    the first one is not the specification's [delay + jitter] for the draw
    1/2 (1500 ms), so it does not follow the jittered formula for all draws
    in [0, 1). *)
Lemma retry_sleep_jitter_counterexample :
  Retry.sleeps (Retry.trace (Retry.retryWithBackoff (Retry.always_rejects tt) Retry.no_sleep
                               Retry.defaults tt))
  = [1000; 2000; 4000] /\
  ~ (forall num den, 0 <= num < den ->
       Retry.sleeps (Retry.trace (Retry.retryWithBackoff (Retry.always_rejects tt) Retry.no_sleep
                                    Retry.defaults tt)) !! 0%nat
       = Some (Retry.spec_sleep Retry.defaults 1 num den)).
Proof.
  split; [reflexivity|].
  intros H. specialize (H 1 2 ltac:(lia)). vm_compute in H. discriminate.
Qed.

Lemma retry_retries_every_error_witness :
  In (0 + 1)
     (Retry.calls
        [Retry.EvSleep 1000; Retry.EvCall 1 (Some Retry.BusinessRejection);
         Retry.EvSleep 2000; Retry.EvCall 2 (Some Retry.BusinessRejection);
         Retry.EvSleep 4000; Retry.EvCall 3 (Some Retry.BusinessRejection)]).
Proof.
  apply (retry_retries_every_error (Retry.always_rejects Retry.BusinessRejection) Retry.no_sleep
           Retry.defaults tt [] 0 Retry.BusinessRejection); [reflexivity | simpl; lia].
Defined.

(** The same through the payment client of the reservations service: a
    charge declined with 402 is sent a second time, one second later. *)
Lemma declined_payment_is_sent_again :
  Retry.trace (Retry.retryWithBackoff
                 (Reservas.request Reservas.pagosClient Reservas.pasarela_rechaza)
                 (fun d t => t + d)
                 (Reservas.opciones_reintento Reservas.pagosClient) 0)
  = [Retry.EvCall 0 (Some (Reservas.reply_error Reservas.pasarela_rechaza));
     Retry.EvSleep 1000;
     Retry.EvCall 1 (Some (Reservas.reply_error Reservas.pasarela_rechaza))] /\
  (Reservas.fire Reservas.pagosClient Reservas.pasarela_rechaza 0).1 = 3000.
Proof. by vm_compute. Qed.

(** C7, counterexample.  An operation that always fails with a business
    rejection, which the specification classes as non-retryable, is called
    four times under the default options, not once. *)
Lemma retry_non_retryable_counterexample :
  Retry.spec_retryable Retry.BusinessRejection = false /\
  Retry.calls (Retry.trace (Retry.retryWithBackoff
                              (Retry.always_rejects Retry.BusinessRejection) Retry.no_sleep
                              Retry.defaults tt))
  = [0; 1; 2; 3] /\
  Retry.calls (Retry.trace (Retry.retryWithBackoff
                              (Retry.always_rejects Retry.BusinessRejection) Retry.no_sleep
                              Retry.defaults tt))
  <> [0].
Proof. split; [reflexivity|]. split; [reflexivity|]. by vm_compute. Qed.

(* --------------------------------------------------------------------- *)
(** ** Bulkhead                                                           *)
(* --------------------------------------------------------------------- *)
Section BulkheadFacts.
Context {T : Type} `{EqDecision T}.
Implicit Types (b : Bulkhead.t T) (fn : T).

Lemma remove_first_length fn (l : list T) :
  fn ∈ l -> S (length (Bulkhead.remove_first fn l)) = length l.
Proof.
  induction l as [|x l IH]; intros Hin; [by apply elem_of_nil in Hin|].
  simpl. destruct (decide (x = fn)); [done|].
  apply elem_of_cons in Hin as [->|Hin]; [done|]. simpl. by rewrite IH.
Qed.

Lemma bulkhead_inv_execute maxC b fn :
  Bulkhead.inv maxC b -> Bulkhead.inv maxC (Bulkhead.execute b fn).1.
Proof.
  intros (Hm & Hc & Hle). unfold Bulkhead.execute.
  destruct (Bulkhead.maxConcurrent b <=? Bulkhead.currentConcurrent b) eqn:Hsat; simpl.
  - done.
  - apply Z.leb_gt in Hsat. unfold Bulkhead.inv; simpl.
    rewrite length_app; simpl. lia.
Qed.

Lemma bulkhead_inv_settle maxC b fn :
  fn ∈ Bulkhead.running b ->
  Bulkhead.inv maxC b -> Bulkhead.inv maxC (Bulkhead.settle b fn).
Proof.
  intros Hin (Hm & Hc & Hle). apply remove_first_length in Hin.
  unfold Bulkhead.settle, Bulkhead._processQueue; simpl.
  destruct (Bulkhead.queue b) as [|next rest]; simpl.
  - unfold Bulkhead.inv; simpl. lia.
  - destruct (Bulkhead.currentConcurrent b - 1 <? Bulkhead.maxConcurrent b) eqn:Hlt.
    + apply Z.ltb_lt in Hlt. unfold Bulkhead.inv; simpl.
      rewrite length_app; simpl. lia.
    + unfold Bulkhead.inv; simpl. lia.
Qed.

Lemma bulkhead_inv_reachable maxC b :
  0 <= maxC -> Bulkhead.reachable maxC b -> Bulkhead.inv maxC b.
Proof.
  intros Hmax Hreach. unfold Bulkhead.reachable in Hreach.
  revert b Hreach. apply rtc_ind_r.
  - unfold Bulkhead.inv; simpl. lia.
  - intros b1 b2 _ Hstep IH. destruct Hstep as [b1 fn|b1 fn Hin].
    + by apply bulkhead_inv_execute.
    + by apply bulkhead_inv_settle.
Qed.

(** C8.  In every state reached from [new Bulkhead(maxC)] by calls of
    [execute] and by settlements of running tasks, [currentConcurrent] is
    at most [maxConcurrent] (and equals the number of running tasks).  A
    submitted task starts only if the counter is below the limit, and
    starting it adds one to the counter.  When a running task settles, with
    either outcome, the [finally] block first takes one off the counter,
    which is then below the limit, and only then looks at the queue: with
    an empty queue the counter stays one lower; otherwise the task at the
    head of the queue is started from the decremented state, which brings
    the counter back to its value before. *)
Theorem bulkhead_bound maxC b :
  0 <= maxC ->
  Bulkhead.reachable maxC b ->
  Bulkhead.currentConcurrent b <= Bulkhead.maxConcurrent b /\
  Bulkhead.currentConcurrent b = Z.of_nat (length (Bulkhead.running b)) /\
  (forall fn, (Bulkhead.execute b fn).2 = Bulkhead.Started ->
     Bulkhead.currentConcurrent b < Bulkhead.maxConcurrent b /\
     Bulkhead.currentConcurrent (Bulkhead.execute b fn).1 = Bulkhead.currentConcurrent b + 1) /\
  (forall fn, fn ∈ Bulkhead.running b ->
     Bulkhead.currentConcurrent (Bulkhead.decrement b fn) = Bulkhead.currentConcurrent b - 1 /\
     Bulkhead.currentConcurrent (Bulkhead.decrement b fn) < Bulkhead.maxConcurrent b /\
     Bulkhead.settle b fn = Bulkhead._processQueue (Bulkhead.decrement b fn) /\
     match Bulkhead.queue b with
     | [] =>
         Bulkhead.settle b fn = Bulkhead.decrement b fn /\
         Bulkhead.currentConcurrent (Bulkhead.settle b fn) = Bulkhead.currentConcurrent b - 1
     | next :: rest =>
         Bulkhead.settle b fn
         = {| Bulkhead.maxConcurrent := Bulkhead.maxConcurrent b;
              Bulkhead.currentConcurrent := Bulkhead.currentConcurrent b - 1 + 1;
              Bulkhead.queue := rest;
              Bulkhead.running := Bulkhead.remove_first fn (Bulkhead.running b) ++ [next] |} /\
         Bulkhead.currentConcurrent (Bulkhead.settle b fn) = Bulkhead.currentConcurrent b
     end /\
     Bulkhead.currentConcurrent (Bulkhead.settle b fn) <= Bulkhead.currentConcurrent b /\
     Bulkhead.currentConcurrent (Bulkhead.settle b fn) <= Bulkhead.maxConcurrent b).
Proof.
  intros Hmax Hreach.
  pose proof (bulkhead_inv_reachable maxC b Hmax Hreach) as Hinv.
  destruct Hinv as (Hm & Hc & Hle).
  split; [lia|]. split; [done|]. split.
  - intros fn. unfold Bulkhead.execute.
    destruct (Bulkhead.maxConcurrent b <=? Bulkhead.currentConcurrent b) eqn:Hsat;
      simpl; [done|].
    apply Z.leb_gt in Hsat. intros _. split; [lia|done].
  - intros fn Hin.
    destruct (bulkhead_inv_settle maxC b fn Hin) as (Hm' & _ & Hle'); [done|].
    split; [done|]. split; [simpl; lia|]. split; [done|].
    unfold Bulkhead.settle, Bulkhead._processQueue, Bulkhead.decrement in *; simpl in *.
    destruct (Bulkhead.queue b) as [|next rest]; simpl in *.
    + split; [by split|]. lia.
    + assert ((Bulkhead.currentConcurrent b - 1 <? Bulkhead.maxConcurrent b) = true) as Hlt
        by (apply Z.ltb_lt; lia).
      rewrite Hlt in *. simpl in *. split; [split; [done|lia]|]. lia.
Qed.

(** States with a saturated bulkhead and a queue of any length are reached
    by submissions alone. *)
Lemma bulkhead_fill maxC fn (k : nat) :
  Z.of_nat k <= maxC ->
  exists b, Bulkhead.reachable maxC b /\ Bulkhead.maxConcurrent b = maxC /\
            Bulkhead.currentConcurrent b = Z.of_nat k /\ Bulkhead.queue b = [].
Proof.
  induction k as [|k IH]; intros Hk.
  - exists (Bulkhead.new maxC). split; [apply rtc_refl|done].
  - destruct IH as (b & Hr & Hm & Hc & Hq); [lia|].
    exists (Bulkhead.execute b fn).1. split.
    + eapply rtc_r; [exact Hr|constructor].
    + unfold Bulkhead.execute.
      destruct (Bulkhead.maxConcurrent b <=? Bulkhead.currentConcurrent b) eqn:Hsat.
      * apply Z.leb_le in Hsat. lia.
      * simpl. repeat split; [done|lia|done].
Qed.

Lemma bulkhead_pile_up maxC fn (n : nat) :
  0 <= maxC ->
  exists b, Bulkhead.reachable maxC b /\ Bulkhead.maxConcurrent b = maxC /\
            Bulkhead.currentConcurrent b = maxC /\ length (Bulkhead.queue b) = n.
Proof.
  intros Hmax. induction n as [|n IH].
  - destruct (bulkhead_fill maxC fn (Z.to_nat maxC)) as (b & Hr & Hm & Hc & Hq); [lia|].
    exists b. rewrite Hq. repeat split; [done|done|lia].
  - destruct IH as (b & Hr & Hm & Hc & Hq).
    exists (Bulkhead.execute b fn).1. split.
    + eapply rtc_r; [exact Hr|constructor].
    + unfold Bulkhead.execute.
      destruct (Bulkhead.maxConcurrent b <=? Bulkhead.currentConcurrent b) eqn:Hsat.
      * simpl. rewrite length_app; simpl. repeat split; [done|done|lia].
      * apply Z.leb_gt in Hsat. lia.
Qed.

(** C3 (as the code has it).  The bulkhead has no queue limit.  A task
    submitted while [currentConcurrent >= maxConcurrent] is never rejected:
    it is appended to the queue, whatever the queue's length; and for every
    length [n] a state whose queue holds [n] tasks is reachable. *)
Theorem bulkhead_queue_unbounded maxC fn (n : nat) :
  0 <= maxC ->
  (forall b, Bulkhead.maxConcurrent b <= Bulkhead.currentConcurrent b ->
     (Bulkhead.execute b fn).2 = Bulkhead.Queued /\
     Bulkhead.queue (Bulkhead.execute b fn).1 = Bulkhead.queue b ++ [fn] /\
     Bulkhead.currentConcurrent (Bulkhead.execute b fn).1 = Bulkhead.currentConcurrent b) /\
  (exists b, Bulkhead.reachable maxC b /\
     Bulkhead.currentConcurrent b = Bulkhead.maxConcurrent b /\
     length (Bulkhead.queue b) = n).
Proof.
  intros Hmax. split.
  - intros b Hsat. unfold Bulkhead.execute.
    apply Z.leb_le in Hsat. by rewrite Hsat.
  - destruct (bulkhead_pile_up maxC fn n Hmax) as (b & Hr & Hm & Hc & Hq).
    exists b. repeat split; [done|lia|done].
Qed.

End BulkheadFacts.

Lemma bulkhead_bound_witness :
  let b := (Bulkhead.execute (Bulkhead.new (T:=nat) 10) 1%nat).1 in
  Bulkhead.currentConcurrent b <= Bulkhead.maxConcurrent b /\
  Bulkhead.currentConcurrent (Bulkhead.settle b 1%nat) = Bulkhead.currentConcurrent b - 1.
Proof.
  intros b.
  destruct (bulkhead_bound 10 b) as (H1 & _ & _ & H4).
  - lia.
  - eapply rtc_l; [apply Bulkhead.step_execute | apply rtc_refl].
  - split; [exact H1|].
    destruct (H4 1%nat) as (_ & _ & _ & Hq & _).
    + vm_compute. left.
    + exact (proj2 Hq).
Defined.

Lemma bulkhead_queue_unbounded_witness :
  exists b : Bulkhead.t nat,
    Bulkhead.reachable 10 b /\
    Bulkhead.currentConcurrent b = Bulkhead.maxConcurrent b /\
    length (Bulkhead.queue b) = 11%nat.
Proof.
  apply (bulkhead_queue_unbounded 10 1%nat 11). lia.
Defined.

(** C3, counterexample (the numbers of Scenario D).  After twenty
    submissions to [new Bulkhead(10)] ten tasks run and ten wait.  The
    specification's controller with [maxQueueLength = 10] rejects the
    twenty-first; [execute] queues it, and the queue then holds eleven. *)
Lemma bulkhead_load_shedding_counterexample :
  let b := Bulkhead.submit_all (Bulkhead.new 10) (seq 1 20) in
  Bulkhead.currentConcurrent b = Bulkhead.maxConcurrent b /\
  length (Bulkhead.queue b) = 10%nat /\
  (Bulkhead.spec_admit 10 b 21%nat).2 = Bulkhead.SpecAdmissionRejected /\
  (Bulkhead.execute b 21%nat).2 = Bulkhead.Queued /\
  length (Bulkhead.queue (Bulkhead.execute b 21%nat).1) = 11%nat.
Proof. vm_compute. by repeat split. Qed.

(* --------------------------------------------------------------------- *)
(** ** Inventory service                                                  *)
(* --------------------------------------------------------------------- *)
(** First the agreement of the two embeddings of the handlers on integers,
    then what every interleaving of requests keeps true. *)
Section InventarioJsonFacts.
Import Json InventarioJson.

Lemma a_json_con_asientos ev n :
  a_json (Inventario.con_asientos ev n) = con_asientosJ (a_json ev) (Num n).
Proof. done. Qed.

Lemma cantidad_invalidaJ_entera c :
  cantidad_invalidaJ (Num <$> c) = Some (Inventario.cantidad_invalida c).
Proof.
  destruct c as [c|]; [|done]. cbn. unfold no_positivo. cbn.
  by destruct (c =? 0).
Qed.

Lemma reservarEnMemoriaJ_entero st e c :
  reservarEnMemoriaJ (estado_a_json st) e (Num c)
  = Some (estado_a_json (Inventario.reservarEnMemoria st e c).1,
          respuesta_a_json (Inventario.reservarEnMemoria st e c).2).
Proof.
  unfold reservarEnMemoriaJ, Inventario.reservarEnMemoria. cbn.
  rewrite lookup_fmap. destruct (Inventario.inventarioMemoria st !! e) as [ev|]; [|done].
  cbn. destruct (Inventario.asientosDisponibles ev <? c); [done|]. cbn.
  unfold estado_a_json, con_inventarioMemoriaJ. cbn. by rewrite fmap_insert.
Qed.

Lemma liberarEnMemoriaJ_entero st e c :
  liberarEnMemoriaJ (estado_a_json st) e (Num c)
  = (estado_a_json (Inventario.liberarEnMemoria st e c).1,
     respuesta_a_json (Inventario.liberarEnMemoria st e c).2).
Proof.
  unfold liberarEnMemoriaJ, Inventario.liberarEnMemoria. cbn.
  rewrite lookup_fmap. destruct (Inventario.inventarioMemoria st !! e) as [ev|]; [|done].
  cbn. unfold estado_a_json, con_inventarioMemoriaJ. cbn. by rewrite fmap_insert.
Qed.

(** On stores that hold integers and for a quantity that is an integer
    (or absent), the handlers on JSON values do what [Inventario.reservar]
    and [Inventario.liberar] do. *)
Lemma reservarJ_entero st e c up :
  reservarJ (estado_a_json st) e (Num <$> c) up
  = Some (estado_a_json (Inventario.reservar st e c up).1,
          respuesta_a_json (Inventario.reservar st e c up).2).
Proof.
  unfold reservarJ. rewrite cantidad_invalidaJ_entera. cbn.
  unfold Inventario.reservar. destruct c as [c|]; [|done]. cbn.
  destruct ((c =? 0) || (c <=? 0)); [done|].
  destruct (Inventario.redisConnected st) eqn:Hflag; cbn.
  2:{ apply reservarEnMemoriaJ_entero. }
  destruct up; cbn.
  2:{ apply (reservarEnMemoriaJ_entero (Inventario.con_redisConnected st false)). }
  unfold scriptJ, Inventario.script. rewrite lookup_fmap.
  destruct (Inventario.redisStore st !! Inventario.clave e) as [ev|]; cbn.
  2:{ apply (reservarEnMemoriaJ_entero (Inventario.con_redisConnected st false)). }
  destruct (Inventario.asientosDisponibles ev <? c); cbn.
  { apply (reservarEnMemoriaJ_entero (Inventario.con_redisConnected st false)). }
  unfold estado_a_json, con_redisStoreJ. cbn. by rewrite fmap_insert.
Qed.

Lemma liberarJ_entero st e c g s :
  liberarJ (estado_a_json st) e (Num <$> c) g s
  = Some (estado_a_json (Inventario.liberar st e c g s).1,
          respuesta_a_json (Inventario.liberar st e c g s).2).
Proof.
  unfold liberarJ. rewrite cantidad_invalidaJ_entera. cbn.
  unfold Inventario.liberar. destruct c as [c|]; [|done]. cbn.
  destruct ((c =? 0) || (c <=? 0)); [done|].
  destruct (Inventario.redisConnected st) eqn:Hflag; cbn.
  2:{ f_equal. apply liberarEnMemoriaJ_entero. }
  destruct g; cbn.
  2:{ f_equal. apply (liberarEnMemoriaJ_entero (Inventario.con_redisConnected st false)). }
  rewrite lookup_fmap.
  destruct (Inventario.redisStore st !! Inventario.clave e) as [ev|]; cbn; [|done].
  f_equal. unfold liberar_tras_setJ, Inventario.liberar_tras_set. destruct s; cbn.
  - rewrite Hflag. cbn. unfold estado_a_json, con_redisStoreJ. cbn. by rewrite fmap_insert.
  - apply (liberarEnMemoriaJ_entero (Inventario.con_redisConnected st false)).
Qed.

Lemma cantidad_entera_valida z :
  cantidad_invalidaJ (Some (Num z)) = Some false <-> 0 < z.
Proof.
  unfold cantidad_invalidaJ, no_positivo. cbn.
  destruct (z =? 0) eqn:H0; cbn.
  - apply Z.eqb_eq in H0. split; [done|lia].
  - apply Z.eqb_neq in H0. split.
    + intros [= H]. lia.
    + intros H. f_equal. lia.
Qed.

Lemma scriptJ_enteros store key z store' r :
  map_Forall (fun _ ev => entero_no_negativo (asientosJ ev)) store ->
  scriptJ store key (Num z) = Some (store', r) ->
  map_Forall (fun _ ev => entero_no_negativo (asientosJ ev)) store'.
Proof.
  intros Hst. unfold scriptJ. destruct (store !! key) as [ev|] eqn:Hk; [|by intros [= <- <-]].
  cbn. destruct (asientosJ ev) as [a| | |]; try (by intros [= <- <-]).
  destruct (a <? z) eqn:Hlt; intros [= <- <-]; [done|].
  apply Z.ltb_ge in Hlt. apply map_Forall_insert_2; [|done].
  exists (a - z). split; [done|lia].
Qed.

Lemma reservarEnMemoriaJ_enteros st eventoId z st' r :
  map_Forall (fun _ ev => entero_no_negativo (asientosJ ev)) (inventarioMemoriaJ st) ->
  reservarEnMemoriaJ st eventoId (Num z) = Some (st', r) ->
  map_Forall (fun _ ev => entero_no_negativo (asientosJ ev)) (inventarioMemoriaJ st') /\
  redisStoreJ st' = redisStoreJ st.
Proof.
  intros Hst. unfold reservarEnMemoriaJ.
  destruct (inventarioMemoriaJ st !! eventoId) as [ev|] eqn:Hk; [|by intros [= <- <-]].
  destruct (Hst _ _ Hk) as (a & Ha & Hpos). rewrite Ha. cbn.
  destruct (a <? z) eqn:Hlt; intros [= <- <-]; [done|].
  apply Z.ltb_ge in Hlt. split; [|done].
  apply map_Forall_insert_2; [|done]. exists (a - z). split; [done|lia].
Qed.

Lemma liberarEnMemoriaJ_enteros st eventoId z :
  0 < z ->
  map_Forall (fun _ ev => entero_no_negativo (asientosJ ev)) (inventarioMemoriaJ st) ->
  map_Forall (fun _ ev => entero_no_negativo (asientosJ ev))
    (inventarioMemoriaJ (liberarEnMemoriaJ st eventoId (Num z)).1) /\
  redisStoreJ (liberarEnMemoriaJ st eventoId (Num z)).1 = redisStoreJ st.
Proof.
  intros Hz Hst. unfold liberarEnMemoriaJ.
  destruct (inventarioMemoriaJ st !! eventoId) as [ev|] eqn:Hk; [|done]. cbn.
  split; [|done]. apply map_Forall_insert_2; [|done].
  destruct (Hst _ _ Hk) as (a & Ha & Hpos). cbn. rewrite Ha. cbn.
  exists (a + z). split; [done|lia].
Qed.

Lemma inicialJ_enteros conectado :
  enteros_no_negativos {| estadoJ := inicialJ conectado; pendientesJ := [] |}.
Proof.
  unfold enteros_no_negativos, inicialJ, Inventario.eventos.
  cbn [estadoJ pendientesJ redisStoreJ inventarioMemoriaJ foldl].
  split; [|split; [|constructor]].
  - destruct conectado; [|apply map_Forall_empty].
    repeat (apply map_Forall_insert_2; [eexists; split; [reflexivity|cbn; lia]|]).
    apply map_Forall_empty.
  - repeat (apply map_Forall_insert_2; [eexists; split; [reflexivity|cbn; lia]|]).
    apply map_Forall_empty.
Qed.

Lemma pasoJ_enteros s s' :
  pasoJ es_entero s s' -> enteros_no_negativos s -> enteros_no_negativos s'.
Proof.
  intros Hpaso (Hr & Hm & Hp).
  destruct Hpaso as [s eventoId c store' r [z ->] Hc Hs
                    |s eventoId c caida st' r [z ->] Hc Hs
                    |s eventoId c ev [z ->] Hc Hget
                    |s l1 eventoId ev' l2 Hpend
                    |s eventoId c caida [z ->] Hc|s];
    unfold enteros_no_negativos; cbn [estadoJ pendientesJ].
  - split; [|done]. eapply scriptJ_enteros; [exact Hr|exact Hs].
  - destruct (reservarEnMemoriaJ_enteros
                (if caida then con_redisConnectedJ (estadoJ s) false else estadoJ s)
                eventoId z st' r) as [Hm' Hr']; [by destruct caida|exact Hs|].
    rewrite Hr'. split; [by destruct caida|done].
  - split; [done|]. split; [done|]. constructor; [|done].
    apply cantidad_entera_valida in Hc.
    destruct (Hr _ _ Hget) as (a & Ha & Hpos). cbn. rewrite Ha. cbn.
    exists (a + z). split; [done|lia].
  - rewrite Hpend in Hp. apply Forall_app in Hp as [Hp1 Hp2].
    apply Forall_cons in Hp2 as [Hev Hp2]. cbn.
    split; [by apply map_Forall_insert_2|]. split; [done|].
    apply Forall_app; by split.
  - apply cantidad_entera_valida in Hc.
    destruct (liberarEnMemoriaJ_enteros
                (if caida then con_redisConnectedJ (estadoJ s) false else estadoJ s)
                eventoId z Hc) as [Hm' Hr']; [by destruct caida|].
    rewrite Hr'. split; [by destruct caida|done].
  - done.
Qed.

Lemma alcanzableJ_enteros conectado s :
  alcanzableJ es_entero conectado s -> enteros_no_negativos s.
Proof.
  unfold alcanzableJ. revert s. apply rtc_ind_r.
  - apply inicialJ_enteros.
  - intros s1 s2 _ Hpaso IH. by eapply pasoJ_enteros.
Qed.

(** The state change of a reservar request served to the end is a sequence
    of the atomic effects. *)
Lemma reservarJ_es_pasos (P : valor -> Prop) st eventoId c redis_up st' r p :
  P c ->
  reservarJ st eventoId (Some c) redis_up = Some (st', r) ->
  rtc (pasoJ P) {| estadoJ := st; pendientesJ := p |} {| estadoJ := st'; pendientesJ := p |}.
Proof.
  intros HP. unfold reservarJ.
  destruct (cantidad_invalidaJ (Some c)) as [[|]|] eqn:Hc; cbn; try done.
  { intros [= <- <-]. apply rtc_refl. }
  destruct (redisConnectedJ st) eqn:Hflag; cbn.
  - destruct redis_up; cbn.
    + destruct (scriptJ (redisStoreJ st) (Inventario.clave eventoId) c)
        as [[store' [result|e]]|] eqn:Hs; cbn; [| |done].
      * intros [= <- <-]. apply rtc_once.
        exact (pasoJ_script P {| estadoJ := st; pendientesJ := p |} eventoId c store'
                 (Resolved result) HP Hc Hs).
      * intros Hm. apply rtc_once.
        exact (pasoJ_reservar_memoria P {| estadoJ := st; pendientesJ := p |} eventoId c
                 true st' r HP Hc Hm).
    + intros Hm. apply rtc_once.
      exact (pasoJ_reservar_memoria P {| estadoJ := st; pendientesJ := p |} eventoId c
               true st' r HP Hc Hm).
  - intros Hm. apply rtc_once.
    exact (pasoJ_reservar_memoria P {| estadoJ := st; pendientesJ := p |} eventoId c
             false st' r HP Hc Hm).
Qed.

(** The same for a liberar request. *)
Lemma liberarJ_es_pasos (P : valor -> Prop) st eventoId c get_up set_up st' r p :
  P c ->
  liberarJ st eventoId (Some c) get_up set_up = Some (st', r) ->
  rtc (pasoJ P) {| estadoJ := st; pendientesJ := p |} {| estadoJ := st'; pendientesJ := p |}.
Proof.
  intros HP. unfold liberarJ.
  destruct (cantidad_invalidaJ (Some c)) as [[|]|] eqn:Hc; cbn; try done.
  { intros [= <- <-]. apply rtc_refl. }
  destruct (redisConnectedJ st) eqn:Hflag; cbn.
  - destruct get_up.
    + destruct (redisStoreJ st !! Inventario.clave eventoId) as [ev|] eqn:Hget.
      2:{ intros [= <- <-]. apply rtc_refl. }
      unfold liberar_tras_setJ. destruct set_up; cbn.
      * rewrite Hflag. cbn. intros [= <- <-].
        eapply rtc_l.
        { exact (pasoJ_get P {| estadoJ := st; pendientesJ := p |} eventoId c ev HP Hc Hget). }
        apply rtc_once.
        exact (pasoJ_set P {| estadoJ := st; pendientesJ := _ :: p |} [] eventoId _ p eq_refl).
      * intros [= H]. apply rtc_once.
        pose proof (pasoJ_liberar_memoria P {| estadoJ := st; pendientesJ := p |} eventoId c
                      true HP Hc) as Hp.
        cbn [estadoJ pendientesJ] in Hp. by rewrite H in Hp.
    + intros [= H]. apply rtc_once.
      pose proof (pasoJ_liberar_memoria P {| estadoJ := st; pendientesJ := p |} eventoId c
                    true HP Hc) as Hp.
      cbn [estadoJ pendientesJ] in Hp. by rewrite H in Hp.
  - intros [= H]. apply rtc_once.
    pose proof (pasoJ_liberar_memoria P {| estadoJ := st; pendientesJ := p |} eventoId c
                  false HP Hc) as Hp.
    cbn [estadoJ pendientesJ] in Hp. by rewrite H in Hp.
Qed.

(** A release adds the quantity to the count of the store that serves it,
    whatever the count is. *)
Lemma liberarJ_suma st eventoId c get_up set_up :
  0 < c ->
  (redisConnectedJ st = false ->
   forall ev a, inventarioMemoriaJ st !! eventoId = Some ev -> asientosJ ev = Num a ->
     exists st',
       liberarJ st eventoId (Some (Num c)) get_up set_up = Some (st', Json200J (Num (a + c))) /\
       asientos_en (inventarioMemoriaJ st') eventoId = Some (Num (a + c))) /\
  (redisConnectedJ st = true -> get_up = true -> set_up = true ->
   forall ev a, redisStoreJ st !! Inventario.clave eventoId = Some ev -> asientosJ ev = Num a ->
     exists st',
       liberarJ st eventoId (Some (Num c)) get_up set_up = Some (st', Json200J (Num (a + c))) /\
       asientos_en (redisStoreJ st') (Inventario.clave eventoId) = Some (Num (a + c))).
Proof.
  intros Hc. pose proof (proj2 (cantidad_entera_valida c) Hc) as Hval.
  split.
  - intros Hflag ev a Hev Ha. unfold liberarJ. rewrite Hval. cbn. rewrite Hflag.
    unfold liberarEnMemoriaJ. rewrite Hev. cbn. rewrite Ha. cbn.
    eexists. split; [reflexivity|]. unfold asientos_en. cbn. by rewrite lookup_insert_eq.
  - intros Hflag -> -> ev a Hev Ha. unfold liberarJ. rewrite Hval. cbn. rewrite Hflag, Hev.
    unfold liberar_tras_setJ. cbn. rewrite Hflag. cbn. rewrite Ha. cbn.
    eexists. split; [reflexivity|]. unfold asientos_en. cbn. by rewrite lookup_insert_eq.
Qed.



Lemma con_asientosJ_restaura ev a c :
  asientosJ ev = Num a ->
  con_asientosJ (con_asientosJ ev (Num (a - c))) (Num (a - c + c)) = ev.
Proof.
  intros Ha. destruct ev as [i n s p]. cbn in *. subst s.
  unfold con_asientosJ; cbn. do 2 f_equal. lia.
Qed.

(** A reserve served by the in-memory store, then releases. *)
Lemma liberarJ_tras_reservarEnMemoriaJ st e c st1 v :
  0 < c ->
  redisConnectedJ st = false ->
  estado_entero st ->
  reservarEnMemoriaJ st e (Num c) = Some (st1, Json200J v) ->
  exists r, v = Num r /\ redisConnectedJ st1 = false /\
    forall g s, exists st2,
      liberarJ st1 e (Some (Num c)) g s = Some (st2, Json200J (Num (r + c))) /\
      redisStoreJ st2 = redisStoreJ st /\
      inventarioMemoriaJ st2 = inventarioMemoriaJ st /\
      redisConnectedJ st2 = false /\
      forall g' s', exists st3,
        liberarJ st2 e (Some (Num c)) g' s' = Some (st3, Json200J (Num (r + 2 * c))).
Proof.
  intros Hc Hflag [_ Hent]. pose proof (proj2 (cantidad_entera_valida c) Hc) as Hval.
  unfold reservarEnMemoriaJ.
  destruct (inventarioMemoriaJ st !! e) as [ev|] eqn:Hget; [|done].
  destruct (Hent _ _ Hget) as [a Ha]. rewrite Ha. cbn -[liberarJ].
  destruct (a <? c); [done|]. intros [= <- <-].
  exists (a - c). split; [done|]. split; [done|]. intros g s.
  unfold liberarJ. rewrite Hval. cbn. rewrite Hflag.
  unfold liberarEnMemoriaJ. cbn. rewrite lookup_insert_eq. cbn.
  rewrite insert_insert_eq, (con_asientosJ_restaura ev a c Ha), (insert_id _ _ _ Hget).
  eexists. split; [reflexivity|]. cbn. split; [done|]. split; [done|]. split; [done|].
  intros g' s'. rewrite Hflag, Hget. cbn. rewrite Ha. cbn.
  replace (a - c + 2 * c) with (a + c) by lia. by eexists.
Qed.


(** A reserve that was granted, then one release of the same quantity with
    no request in between, and a second one. *)
Lemma liberarJ_tras_reservarJ st e c up st1 v :
  estado_entero st ->
  reservarJ st e (Some (Num c)) up = Some (st1, Json200J v) ->
  exists r, v = Num r /\ 0 < c /\
    (forall g s,
       redisConnectedJ st1 = false \/ (g = true /\ s = true) ->
       exists st2,
         liberarJ st1 e (Some (Num c)) g s = Some (st2, Json200J (Num (r + c))) /\
         redisStoreJ st2 = redisStoreJ st /\
         inventarioMemoriaJ st2 = inventarioMemoriaJ st /\
         redisConnectedJ st2 = redisConnectedJ st1 /\
         forall g' s',
           redisConnectedJ st2 = false \/ (g' = true /\ s' = true) ->
           exists st3,
             liberarJ st2 e (Some (Num c)) g' s' = Some (st3, Json200J (Num (r + 2 * c)))) /\
    (forall g s,
       redisConnectedJ st1 = true -> g = false \/ s = false ->
       exists st2 resp,
         liberarJ st1 e (Some (Num c)) g s = Some (st2, resp) /\
         redisConnectedJ st2 = false /\
         redisStoreJ st2 = redisStoreJ st1 /\
         asientos_en (redisStoreJ st2) (Inventario.clave e) = Some (Num r) /\
         asientos_en (redisStoreJ st) (Inventario.clave e) = Some (Num (r + c)) /\
         match inventarioMemoriaJ st !! e with
         | Some evm =>
             exists m, asientosJ evm = Num m /\ resp = Json200J (Num (m + c)) /\
                       asientos_en (inventarioMemoriaJ st2) e = Some (Num (m + c))
         | None =>
             resp = JsonErrorJ 404 "Event not found" /\
             inventarioMemoriaJ st2 = inventarioMemoriaJ st
         end).
Proof.
  intros Hent. unfold reservarJ.
  destruct (cantidad_invalidaJ (Some (Num c))) as [[|]|] eqn:Hval; cbn -[liberarJ]; try done.
  pose proof (proj1 (cantidad_entera_valida c) Hval) as Hc.
  assert (forall st0,
            redisConnectedJ st0 = false ->
            redisStoreJ st0 = redisStoreJ st ->
            inventarioMemoriaJ st0 = inventarioMemoriaJ st ->
            reservarEnMemoriaJ st0 e (Num c) = Some (st1, Json200J v) ->
            exists r, v = Num r /\ 0 < c /\
              (forall g s,
                 redisConnectedJ st1 = false \/ (g = true /\ s = true) ->
                 exists st2,
                   liberarJ st1 e (Some (Num c)) g s = Some (st2, Json200J (Num (r + c))) /\
                   redisStoreJ st2 = redisStoreJ st /\
                   inventarioMemoriaJ st2 = inventarioMemoriaJ st /\
                   redisConnectedJ st2 = redisConnectedJ st1 /\
                   forall g' s',
                     redisConnectedJ st2 = false \/ (g' = true /\ s' = true) ->
                     exists st3,
                       liberarJ st2 e (Some (Num c)) g' s'
                       = Some (st3, Json200J (Num (r + 2 * c)))) /\
              (forall g s,
                 redisConnectedJ st1 = true -> g = false \/ s = false ->
                 exists st2 resp,
                   liberarJ st1 e (Some (Num c)) g s = Some (st2, resp) /\
                   redisConnectedJ st2 = false /\
                   redisStoreJ st2 = redisStoreJ st1 /\
                   asientos_en (redisStoreJ st2) (Inventario.clave e) = Some (Num r) /\
                   asientos_en (redisStoreJ st) (Inventario.clave e) = Some (Num (r + c)) /\
                   match inventarioMemoriaJ st !! e with
                   | Some evm =>
                       exists m, asientosJ evm = Num m /\ resp = Json200J (Num (m + c)) /\
                                 asientos_en (inventarioMemoriaJ st2) e = Some (Num (m + c))
                   | None =>
                       resp = JsonErrorJ 404 "Event not found" /\
                       inventarioMemoriaJ st2 = inventarioMemoriaJ st
                   end)) as Hmem.
  { intros st0 Hflag0 Hr0 Hm0 Hres.
    destruct (liberarJ_tras_reservarEnMemoriaJ st0 e c st1 v Hc Hflag0) as
      (r & -> & Hflag1 & Hlib); [|exact Hres|].
    { destruct Hent as [H1 H2]. split; [by rewrite Hr0|by rewrite Hm0]. }
    exists r. split; [done|]. split; [done|]. split.
    - intros g s _. destruct (Hlib g s) as (st2 & H1 & H2 & H3 & H4 & H5).
      exists st2. split; [done|]. split; [by rewrite H2|]. split; [by rewrite H3|].
      split; [by rewrite H4, Hflag1|]. intros g' s' _. apply H5.
    - intros g s Habs. by rewrite Hflag1 in Habs. }
  destruct (redisConnectedJ st) eqn:Hflag; cbn -[liberarJ].
  2:{ by apply Hmem. }
  destruct up; cbn -[liberarJ].
  2:{ by apply Hmem. }
  unfold scriptJ.
  destruct (redisStoreJ st !! Inventario.clave e) as [ev|] eqn:Hget; cbn -[liberarJ].
  2:{ by apply Hmem. }
  destruct (proj1 Hent _ _ Hget) as [a Ha]. rewrite Ha.
  destruct (a <? c) eqn:Hlt; cbn -[liberarJ].
  { by apply Hmem. }
  intros [= <- <-]. exists (a - c). split; [done|]. split; [done|].
  split.
  - intros g s [Habs|[-> ->]]; [cbn in Habs; congruence|].
    unfold liberarJ. rewrite Hval. cbn. rewrite Hflag, lookup_insert_eq.
    unfold liberar_tras_setJ. cbn. rewrite Hflag. cbn.
    rewrite insert_insert_eq, (con_asientosJ_restaura ev a c Ha), (insert_id _ _ _ Hget).
    eexists. split; [reflexivity|]. cbn. repeat split; try done.
    intros g' s' [Habs|[-> ->]]; [cbn in Habs; congruence|].
    rewrite Hflag, Hget. cbn. rewrite Hflag. cbn. rewrite Ha. cbn.
    replace (a - c + 2 * c) with (a + c) by lia. by eexists.
  - intros g s _ Hgs.
    assert (exists st2 resp,
              liberarEnMemoriaJ
                (con_redisConnectedJ
                   (con_redisStoreJ st
                      (<[Inventario.clave e := con_asientosJ ev (Num (a - c))]> (redisStoreJ st)))
                   false) e (Num c) = (st2, resp) /\
              redisConnectedJ st2 = false /\
              redisStoreJ st2
              = <[Inventario.clave e := con_asientosJ ev (Num (a - c))]> (redisStoreJ st) /\
              match inventarioMemoriaJ st !! e with
              | Some evm =>
                  exists m, asientosJ evm = Num m /\ resp = Json200J (Num (m + c)) /\
                            asientos_en (inventarioMemoriaJ st2) e = Some (Num (m + c))
              | None =>
                  resp = JsonErrorJ 404 "Event not found" /\
                  inventarioMemoriaJ st2 = inventarioMemoriaJ st
              end) as (st2 & resp & Hl & Hf2 & Hr2 & Hcase).
    { unfold liberarEnMemoriaJ. cbn.
      destruct (inventarioMemoriaJ st !! e) as [evm|] eqn:Hm.
      - destruct (proj2 Hent _ _ Hm) as [m Hmm]. cbn. rewrite Hmm. cbn.
        eexists _, _. split; [reflexivity|]. cbn. repeat split; try done.
        exists m. repeat split; try done. unfold asientos_en. by rewrite lookup_insert_eq.
      - eexists _, _. split; [reflexivity|]. cbn. by repeat split. }
    exists st2, resp.
    split.
    { unfold liberarJ. rewrite Hval. cbn. rewrite Hflag.
      destruct g.
      - destruct Hgs as [?| ->]; [done|]. rewrite lookup_insert_eq.
        unfold liberar_tras_setJ. cbn. by rewrite Hl.
      - by rewrite Hl. }
    split; [done|]. split; [by rewrite Hr2|]. split.
    { rewrite Hr2. unfold asientos_en. by rewrite lookup_insert_eq. }
    split; [|done].
    unfold asientos_en. rewrite Hget. cbn. rewrite Ha. do 2 f_equal. lia.
Qed.

End InventarioJsonFacts.




(* --------------------------------------------------------------------- *)
(** ** Reservations service                                               *)
(* --------------------------------------------------------------------- *)
(** Runs the handler's monad as far as the known outcomes allow. *)
Ltac ejecuta :=
  cbv beta iota zeta delta
    [Reservas.post_reservas Reservas.post_reservas_M Reservas.cuerpo
     Reservas.catch_externo Reservas.consulta Reservas.guardar
     Reservas.lock_release Reservas.si_lock_release Reservas.intenta
     Reservas.bind Reservas.ret Reservas.responde Reservas.lanza
     Reservas.accion Reservas.espera Reservas.respuesta_de
     Reservas.servicio Reservas.acciones fst snd negb orb].

Section ReservasFacts.
Import Reservas.

(** C5.  When the live fetch fails: an entry younger than the TTL is
    returned, every field as it was stored and [fromCache] set, and the
    cache is left as it was; with no entry, or an entry whose age is at
    least the TTL, the read fails with the "no valid cache" error and
    returns nothing. *)
Theorem stale_read_on_failure (cache : gmap string CacheEntry) evId error now :
  (forall cached,
     cache !! evId = Some cached ->
     now - timestamp cached < INVENTARIO_CACHE_TTL ->
     consultarInventario cache evId (Rejected error) now
     = (cache,
        Resolved {| eventoId := eventoId (data cached);
                    nombre := nombre (data cached);
                    asientosDisponibles := asientosDisponibles (data cached);
                    precio := precio (data cached);
                    disponible := disponible (data cached);
                    fromCache := true |})) /\
  ((cache !! evId = None \/
    exists cached, cache !! evId = Some cached /\
                   INVENTARIO_CACHE_TTL <= now - timestamp cached) ->
   consultarInventario cache evId (Rejected error) now
   = (cache, Rejected (Error ("Inventory service unavailable and no valid cache for "
                              +:+ evId)))).
Proof.
  split.
  - intros cached Hc Hage. unfold consultarInventario. rewrite Hc.
    apply Z.ltb_lt in Hage. by rewrite Hage.
  - intros [Hnone|(cached & Hc & Hage)]; unfold consultarInventario.
    + by rewrite Hnone.
    + rewrite Hc. apply Z.ltb_ge in Hage. by rewrite Hage.
Qed.

Lemma TypeError_release_sin_lock : includes (message TypeError_release) "lock" = false.
Proof. by vm_compute. Qed.

Lemma request_timeout {A : Type} (c : ClientOptions) (p : Peer A) t :
  timeout c < latency p ->
  request c p t
  = (t + timeout c,
     Rejected {| message := "timeout of " +:+ pretty (timeout c) +:+ "ms exceeded";
                 code := Some "ECONNABORTED"%string; response_status := None |}).
Proof. intros H. unfold request. apply Z.ltb_lt in H. by rewrite H. Qed.

(** A request that is rejected each time, [d] ms after it was sent: three
    attempts, with sleeps of 1000 and 2000 ms between them. *)
Lemma retry_inventario_rechazado {A : Type} (p : Peer A) clock d er :
  (forall t, request inventarioClient p t = (t + d, Rejected er)) ->
  Retry.world (Retry.retryWithBackoff (request inventarioClient p) (fun d t => t + d)
                 (opciones_reintento inventarioClient) clock)
  = clock + d + 1000 + d + 2000 + d /\
  Retry.result (Retry.retryWithBackoff (request inventarioClient p) (fun d t => t + d)
                  (opciones_reintento inventarioClient) clock)
  = Rejected (Some er) /\
  Retry.calls (Retry.trace (Retry.retryWithBackoff (request inventarioClient p)
                              (fun d t => t + d)
                              (opciones_reintento inventarioClient) clock))
  = [0; 1; 2].
Proof.
  intros Hreq. unfold Retry.retryWithBackoff. change (Z.to_nat _) with 3%nat.
  cbn [Retry.loop]. rewrite !Hreq. by repeat split.
Qed.

(** A call of [inventarioClient] to a peer that rejects (or is slower than
    the 3000 ms of axios) ends after 3000 ms with the breaker's own
    timeout error: the rejected request is retried after sleeps of 1000 and
    2000 ms, which together last as long as the breaker's deadline. *)
Lemma inventarioClient_rechazado {A : Type} (p : Peer A) clock d er :
  0 < d ->
  (forall t, request inventarioClient p t = (t + d, Rejected er)) ->
  fire inventarioClient p clock
  = (clock + 3000,
     Rejected {| message := "Timed out after 3000ms"; code := Some "ETIMEDOUT"%string;
                 response_status := None |}).
Proof.
  intros Hd Hreq.
  destruct (retry_inventario_rechazado p clock d er Hreq) as (Hw & Hr & _).
  unfold fire. cbv zeta. rewrite Hw, Hr.
  assert ((breaker_timeout inventarioClient <? clock + d + 1000 + d + 2000 + d - clock)
          = true) as -> by (apply Z.ltb_lt; cbn; lia).
  by vm_compute.
Qed.

(** Whatever the inventory service answers, and however fast, a call of
    [inventarioClient] that fails fails that way. *)
Lemma inventarioClient_falla_por_tiempo {A : Type} (p : Peer A) clock e :
  0 < latency p ->
  (fire inventarioClient p clock).2 = Rejected e ->
  fire inventarioClient p clock
  = (clock + 3000,
     Rejected {| message := "Timed out after 3000ms"; code := Some "ETIMEDOUT"%string;
                 response_status := None |}).
Proof.
  intros Hlat.
  destruct (timeout inventarioClient <? latency p) eqn:Ht.
  - apply Z.ltb_lt in Ht. intros _.
    eapply (inventarioClient_rechazado p clock (timeout inventarioClient)); [by vm_compute|].
    intros t. by apply request_timeout.
  - destruct (reply p) as [a|er] eqn:Hreply.
    + unfold fire, Retry.retryWithBackoff. cbv zeta. change (Z.to_nat _) with 3%nat.
      cbn [Retry.loop]. unfold request. rewrite Ht, Hreply. cbn [Retry.world Retry.result].
      apply Z.ltb_ge in Ht. change (timeout inventarioClient) with 3000 in Ht.
      assert ((breaker_timeout inventarioClient <? clock + latency p - clock) = false) as ->
        by (apply Z.ltb_ge; cbn; lia).
      done.
    + intros _. apply (inventarioClient_rechazado p clock (latency p) er Hlat).
      intros t. unfold request. by rewrite Ht, Hreply.
Qed.


Lemma nueva_reserva_confirmada env req inv pagoData :
  estado (nueva_reserva env req inv pagoData) = "confirmada".
Proof. reflexivity. Qed.

(** POST /reservas either leaves the [reservas] map alone or, the payment
    having resolved, adds the new record under [reservaId]; in that case
    the payment call is among the calls made. *)
Lemma post_reservas_reservas st req env :
  reservas (post_reservas st req env).1.1 = reservas st \/
  exists inv pagoData,
    pago env = Resolved pagoData /\
    In (Pago (monto (nueva_reserva env req inv pagoData))) (post_reservas st req env).1.2 /\
    reservas (post_reservas st req env).1.1
    = <[reservaId env := nueva_reserva env req inv pagoData]> (reservas st).
Proof.
  unfold post_reservas, post_reservas_M. ejecuta.
  destruct (redlock env);
  destruct (acquire env) as [[]|ea];
  destruct (release env) as [[]|er];
  ejecuta;
  repeat match goal with
    | |- context [if ?b then _ else _] => destruct b; ejecuta
    end;
  try (left; reflexivity);
  destruct (consultarInventario _ _ _ _) as [cache' [inv|ei]] eqn:Hc;
  ejecuta;
  repeat match goal with
    | |- context [if ?b then _ else _] => destruct b; ejecuta
    end;
  try (left; reflexivity);
  destruct (post_reservar env) as [[]|ep]; ejecuta;
  repeat match goal with
    | |- context [if ?b then _ else _] => destruct b; ejecuta
    end;
  try (left; reflexivity);
  destruct (pago env) as [pd|epago]; ejecuta;
  destruct (post_liberar env) as [[]|el]; ejecuta;
  destruct (post_notificar env) as [[]|en]; ejecuta;
  repeat match goal with
    | |- context [if ?b then _ else _] => destruct b; ejecuta
    end;
  try (left; reflexivity);
  right; exists inv, pd; (split; [reflexivity|]); (split; [|reflexivity]);
  cbn; auto 10.
Qed.

(** DELETE /reservas/:id either leaves the map alone or turns a stored
    record that is not yet cancelled into a cancelled one. *)
Lemma delete_reserva_reservas st rid env :
  reservas (delete_reserva st rid env).1 = reservas st \/
  exists r,
    reservas st !! rid = Some r /\ estado r <> "cancelada" /\
    reservas (delete_reserva st rid env).1
    = <[rid := cancelar r (c_ahora env)]> (reservas st).
Proof.
  unfold delete_reserva.
  destruct (reservas st !! rid) as [r|] eqn:Hr; [|by left].
  case_bool_decide as Hest; [by left|].
  destruct (post_reembolsar env) as [[]|], (c_post_liberar env) as [[]|];
    try (by left).
  right. by exists r.
Qed.

Lemma transicion_estados_validos st st' :
  transicion st st' -> estados_validos (reservas st) -> estados_validos (reservas st').
Proof.
  intros Hpaso Hinv. destruct Hpaso as [st req env|st rid env|st rid r now Hr].
  - destruct (post_reservas_reservas st req env) as [->|(inv & pd & _ & _ & ->)]; [done|].
    apply map_Forall_insert_2; [by left|done].
  - destruct (delete_reserva_reservas st rid env) as [->|(r & _ & _ & ->)]; [done|].
    apply map_Forall_insert_2; [by right|done].
  - simpl. apply map_Forall_insert_2; [by right|done].
Qed.

Lemma accesible_estados_validos st : accesible st -> estados_validos (reservas st).
Proof.
  unfold accesible. revert st. apply rtc_ind_r.
  - apply map_Forall_empty.
  - intros st1 st2 _ Hpaso IH. by eapply transicion_estados_validos.
Qed.

(** C10.  (1) Every record GET /reservas returns, in any state the service
    reaches, has state "confirmada" or "cancelada".  (2) POST /reservas
    changes the [reservas] map only by storing the new record, in state
    "confirmada", and only when the payment resolved (the payment call
    having been made): a saga that stops before or at the payment stores
    nothing.  (3) DELETE /reservas/:id changes the map only by turning a
    stored, not yet cancelled record into a "cancelada" one. *)
Theorem reservas_confirmed_or_cancelled :
  (forall st r, accesible st -> r ∈ get_reservas st ->
     estado r = "confirmada" \/ estado r = "cancelada") /\
  (forall st req env,
     reservas (post_reservas st req env).1.1 = reservas st \/
     exists inv pagoData,
       pago env = Resolved pagoData /\
       In (Pago (monto (nueva_reserva env req inv pagoData))) (post_reservas st req env).1.2 /\
       estado (nueva_reserva env req inv pagoData) = "confirmada" /\
       reservas (post_reservas st req env).1.1
       = <[reservaId env := nueva_reserva env req inv pagoData]> (reservas st)) /\
  (forall st rid env,
     reservas (delete_reserva st rid env).1 = reservas st \/
     exists r,
       reservas st !! rid = Some r /\ estado r <> "cancelada" /\
       estado (cancelar r (c_ahora env)) = "cancelada" /\
       reservas (delete_reserva st rid env).1
       = <[rid := cancelar r (c_ahora env)]> (reservas st)).
Proof.
  split; [|split].
  - intros st r Hreach Hin. unfold get_reservas in Hin.
    apply list_elem_of_fmap in Hin as ([k r'] & -> & Hin).
    apply elem_of_map_to_list in Hin.
    exact (accesible_estados_validos st Hreach k r' Hin).
  - intros st req env.
    destruct (post_reservas_reservas st req env) as [H|(inv & pd & H1 & H2 & H3)];
      [by left|].
    right. by exists inv, pd.
  - intros st rid env.
    destruct (delete_reserva_reservas st rid env) as [H|(r & H1 & H2 & H3)]; [by left|].
    right. by exists r.
Qed.

End ReservasFacts.

(** C4, the code at the failing input.  The payment client is configured
    with a 25 s timeout (axios and breaker alike), not 5 s.  Against a
    payment service that takes 20.5 s, [procesarPago] is not timed out: it
    resolves after 20500 ms with the transaction, and POST /reservas answers
    201 with a confirmed reservation, without ever calling the release of
    the seats. *)
Theorem payment_deadline_longer_than_latency :
  Reservas.timeout Reservas.pagosClient = 25000 /\
  Reservas.breaker_timeout Reservas.pagosClient = 25000 /\
  (Reservas.procesarPago Reservas.pagosBulkhead "r-1" Reservas.pagosClient
     Reservas.pasarela_lenta 0).2
  = Some (20500, Resolved {| Reservas.transaccionId := "tx-1" |}) /\
  Reservas.status_de
    (Reservas.post_reservas Reservas.servicio_inicial Reservas.peticion_ejemplo
       (Reservas.entorno_ejemplo Reservas.pasarela_lenta)).2 = 201 /\
  (Reservas.post_reservas Reservas.servicio_inicial Reservas.peticion_ejemplo
     (Reservas.entorno_ejemplo Reservas.pasarela_lenta)).1.2
  = [Reservas.AcquireLock; Reservas.GetInventario; Reservas.PostReservar 2;
     Reservas.Pago 100; Reservas.GuardarReserva "r-1"; Reservas.Notificar;
     Reservas.ReleaseLock].
Proof. vm_compute. by repeat split. Qed.

Lemma stale_read_on_failure_witness :
  let d := {| Reservas.eventoId := "evento-1"; Reservas.nombre := "Rock Concert";
              Reservas.asientosDisponibles := 100; Reservas.precio := 50;
              Reservas.disponible := true; Reservas.fromCache := false |} in
  let cache : gmap string Reservas.CacheEntry :=
    {[ "evento-1"%string := {| Reservas.data := d; Reservas.timestamp := 1000 |} ]} in
  Reservas.consultarInventario cache "evento-1" (Rejected (Reservas.Error "ECONNREFUSED")) 2000
  = (cache,
     Resolved {| Reservas.eventoId := "evento-1"; Reservas.nombre := "Rock Concert";
                 Reservas.asientosDisponibles := 100; Reservas.precio := 50;
                 Reservas.disponible := true; Reservas.fromCache := true |}) /\
  Reservas.consultarInventario cache "evento-1" (Rejected (Reservas.Error "ECONNREFUSED")) 601000
  = (cache, Rejected (Reservas.Error
       ("Inventory service unavailable and no valid cache for " +:+ "evento-1"))).
Proof.
  intros d cache. split.
  - apply (proj1 (stale_read_on_failure cache "evento-1"
                    (Reservas.Error "ECONNREFUSED") 2000)
             {| Reservas.data := d; Reservas.timestamp := 1000 |});
      [reflexivity | reflexivity].
  - apply (proj2 (stale_read_on_failure cache "evento-1"
                    (Reservas.Error "ECONNREFUSED") 601000)).
    right. exists {| Reservas.data := d; Reservas.timestamp := 1000 |}.
    split; [reflexivity | by vm_compute].
Defined.



Section Compensation.
Import Reservas.

(** When the payment fails after the seats were reserved, the handler calls
    the release exactly once, for the quantity it reserved, and stores no
    record. *)
Lemma pago_fallido_compensa st req env inv e :
  (consultarInventario (inventarioCache st) (p_eventoId req)
     (get_inventario env) (ahora env)).2 = Resolved inv ->
  disponible inv = true ->
  asientos req <= asientosDisponibles inv ->
  (redlock env = true -> acquire env = Resolved tt) ->
  post_reservar env = Resolved tt ->
  pago env = Rejected e ->
  mutaciones_inventario (post_reservas st req env).1.2
  = [PostReservar (asientos req); PostLiberar (asientos req)] /\
  reservas (post_reservas st req env).1.1 = reservas st.
Proof.
  intros Hinv Hdisp Hseats Hacq Hres Hpago.
  destruct (consultarInventario _ _ _ _) as [cache' r] eqn:Hc. simpl in Hinv. subst r.
  assert ((asientosDisponibles inv <? asientos req) = false) as Hlt
    by (apply Z.ltb_ge; lia).
  unfold post_reservas, post_reservas_M.
  destruct (redlock env) eqn:Hlock.
  - rewrite (Hacq eq_refl). ejecuta. rewrite Hc. ejecuta. rewrite Hdisp, Hlt. ejecuta.
    rewrite Hres. ejecuta. rewrite Hpago. ejecuta.
    destruct (post_liberar env) as [[]|el], (release env) as [[]|er]; ejecuta;
      repeat match goal with
        | |- context [if ?b then _ else _] => destruct b; ejecuta
        end;
      by split.
  - ejecuta. rewrite Hc. ejecuta. rewrite Hdisp, Hlt. ejecuta.
    rewrite Hres. ejecuta. rewrite Hpago. ejecuta.
    destruct (post_liberar env) as [[]|el]; ejecuta;
      repeat match goal with
        | |- context [if ?b then _ else _] => destruct b; ejecuta
        end;
      by split.
Qed.


End Compensation.


Lemma reservas_confirmed_or_cancelled_witness :
  let env := Reservas.entorno_ejemplo Reservas.pasarela_lenta in
  let r :=
    Reservas.nueva_reserva env Reservas.peticion_ejemplo
      {| Reservas.eventoId := "evento-1"; Reservas.nombre := "Rock Concert";
         Reservas.asientosDisponibles := 100; Reservas.precio := 50;
         Reservas.disponible := true; Reservas.fromCache := false |}
      {| Reservas.transaccionId := "tx-1" |} in
  Reservas.estado r = "confirmada"%string \/ Reservas.estado r = "cancelada"%string.
Proof.
  intros env r.
  apply (proj1 reservas_confirmed_or_cancelled
           (Reservas.post_reservas Reservas.servicio_inicial Reservas.peticion_ejemplo env).1.1 r).
  - eapply rtc_l; [apply Reservas.transicion_post | apply rtc_refl].
  - vm_compute. constructor.
Defined.

(* ===================================================================== *)
(** * Part III.  Further properties of the code                           *)
(* ===================================================================== *)

(* --------------------------------------------------------------------- *)
(** ** retryWithBackoff: bounds and outcomes                              *)
(* --------------------------------------------------------------------- *)
Section RetryOutcomes.
Context {W E A : Type}.
Variable fn : W -> W * outcome E A.
Variable sleep : Z -> W -> W.
Variable o : Retry.Options.

Lemma loop_work_bounded fuel : forall attempt lastError w,
  0 <= Retry.maxDelay o ->
  (length (Retry.calls (Retry.trace (Retry.loop fn sleep o fuel attempt lastError w)))
   <= fuel)%nat /\
  Retry.total_sleep (Retry.trace (Retry.loop fn sleep o fuel attempt lastError w))
  <= Z.max 0 (Retry.maxRetries o - attempt) * Retry.maxDelay o.
Proof.
  induction fuel as [|fuel IH]; intros attempt lastError w Hmax.
  - simpl. split; [done|]. unfold Retry.total_sleep; simpl. nia.
  - simpl. destruct (fn w) as [w' [a|e]].
    + simpl. split; [lia|]. unfold Retry.total_sleep; simpl. nia.
    + destruct (attempt <? Retry.maxRetries o) eqn:Hlt.
      * apply Z.ltb_lt in Hlt.
        destruct (IH (attempt + 1) (Some e) (sleep (Retry.delay o attempt) w') Hmax)
          as [Hc Hs].
        cbn [Retry.trace]. split; [simpl; lia|].
        unfold Retry.total_sleep in *. cbn [Retry.sleeps omap foldr] in *.
        simpl. simpl in Hs.
        assert (Retry.delay o attempt <= Retry.maxDelay o) by (unfold Retry.delay; lia).
        nia.
      * apply Z.ltb_ge in Hlt.
        destruct (IH (attempt + 1) (Some e) w' Hmax) as [Hc Hs].
        cbn [Retry.trace]. split; [simpl; lia|].
        unfold Retry.total_sleep in *. simpl. simpl in Hs. nia.
Qed.

(** X1.  Whatever the operation does, a run of [retryWithBackoff] calls it
    at most [maxRetries + 1] times and sleeps at most
    [maxRetries * maxDelay] milliseconds in all. *)
Theorem retry_work_bounded w :
  0 <= Retry.maxDelay o ->
  (length (Retry.calls (Retry.trace (Retry.retryWithBackoff fn sleep o w)))
   <= Z.to_nat (Retry.maxRetries o + 1))%nat /\
  Retry.total_sleep (Retry.trace (Retry.retryWithBackoff fn sleep o w))
  <= Z.max 0 (Retry.maxRetries o) * Retry.maxDelay o.
Proof.
  intros Hmax. unfold Retry.retryWithBackoff.
  destruct (loop_work_bounded (Z.to_nat (Retry.maxRetries o + 1)) 0 None w Hmax) as [Hc Hs].
  split; [done|]. by rewrite Z.sub_0_r in Hs.
Qed.

(** The shape of a finished run: a resolved run ends with its only
    successful call; a rejected run has none, and its last call is the one
    numbered [maxRetries], whose error is the one thrown. *)
Lemma loop_outcome fuel : forall attempt lastError w,
  Z.of_nat fuel = Retry.maxRetries o + 1 - attempt ->
  match Retry.result (Retry.loop fn sleep o fuel attempt lastError w) with
  | Resolved _ =>
      exists l k,
        Retry.trace (Retry.loop fn sleep o fuel attempt lastError w)
        = l ++ [Retry.EvCall k None] /\
        forall k', Retry.EvCall k' None ∉ l
  | Rejected oe =>
      (forall k', Retry.EvCall k' None ∉
                  Retry.trace (Retry.loop fn sleep o fuel attempt lastError w)) /\
      match fuel with
      | O => oe = lastError /\
             Retry.trace (Retry.loop fn sleep o fuel attempt lastError w) = []
      | S _ =>
          exists e l, oe = Some e /\
            Retry.trace (Retry.loop fn sleep o fuel attempt lastError w)
            = l ++ [Retry.EvCall (Retry.maxRetries o) (Some e)]
      end
  end.
Proof.
  induction fuel as [|fuel IH]; intros attempt lastError w Hfuel.
  - simpl. split; [|done]. intros k' Hin. by apply elem_of_nil in Hin.
  - simpl. destruct (fn w) as [w' [a|e]].
    + simpl. exists [], attempt. split; [done|]. intros k' Hin. by apply elem_of_nil in Hin.
    + destruct (attempt <? Retry.maxRetries o) eqn:Hlt.
      * apply Z.ltb_lt in Hlt.
        specialize (IH (attempt + 1) (Some e) (sleep (Retry.delay o attempt) w')
                      ltac:(lia)).
        cbn [Retry.result Retry.trace].
        destruct (Retry.result (Retry.loop fn sleep o fuel (attempt + 1) (Some e)
                                  (sleep (Retry.delay o attempt) w'))) as [a|oe].
        -- destruct IH as (l & k & -> & Hl).
           exists (Retry.EvCall attempt (Some e) :: Retry.EvSleep (Retry.delay o attempt) :: l), k.
           split; [done|]. intros k' Hin.
           apply elem_of_cons in Hin as [?|Hin]; [done|].
           apply elem_of_cons in Hin as [?|Hin]; [done|]. by eapply Hl.
        -- destruct IH as [Hno Hlast]. split.
           ++ intros k' Hin.
              apply elem_of_cons in Hin as [?|Hin]; [done|].
              apply elem_of_cons in Hin as [?|Hin]; [done|]. by eapply Hno.
           ++ destruct fuel as [|fuel]; [lia|].
              destruct Hlast as (e' & l & -> & ->).
              by exists e', (Retry.EvCall attempt (Some e)
                             :: Retry.EvSleep (Retry.delay o attempt) :: l).
      * apply Z.ltb_ge in Hlt.
        destruct fuel as [|fuel]; [|lia].
        simpl. split.
        -- intros k' Hin. apply elem_of_cons in Hin as [?|Hin]; [done|].
           by apply elem_of_nil in Hin.
        -- exists e, []. split; [done|]. simpl. repeat f_equal. lia.
Qed.

(** X2.  A run that resolves stops at the first successful call: that call
    is the last event of the run (no sleep and no call follow it) and every
    call before it failed. *)
Theorem retry_stops_at_first_success w a :
  Retry.result (Retry.retryWithBackoff fn sleep o w) = Resolved a ->
  exists l k,
    Retry.trace (Retry.retryWithBackoff fn sleep o w) = l ++ [Retry.EvCall k None] /\
    forall k', Retry.EvCall k' None ∉ l.
Proof.
  unfold Retry.retryWithBackoff. intros Hres.
  destruct (decide (0 <= Retry.maxRetries o + 1)) as [Hm|Hm].
  - pose proof (loop_outcome (Z.to_nat (Retry.maxRetries o + 1)) 0 None w ltac:(lia)) as H.
    by rewrite Hres in H.
  - replace (Z.to_nat (Retry.maxRetries o + 1)) with 0%nat in Hres by lia. done.
Qed.

(** X3.  A run that rejects never had a successful call.  With
    [maxRetries >= 0] it throws the error of its last call, the call
    numbered [maxRetries], not that of an earlier one; with a negative
    [maxRetries] the operation is never called and [undefined] is thrown. *)
Theorem retry_throws_last_error w oe :
  Retry.result (Retry.retryWithBackoff fn sleep o w) = Rejected oe ->
  (forall k, Retry.EvCall k None ∉ Retry.trace (Retry.retryWithBackoff fn sleep o w)) /\
  (0 <= Retry.maxRetries o ->
   exists e l, oe = Some e /\
     Retry.trace (Retry.retryWithBackoff fn sleep o w)
     = l ++ [Retry.EvCall (Retry.maxRetries o) (Some e)]) /\
  (Retry.maxRetries o < 0 ->
   oe = None /\ Retry.trace (Retry.retryWithBackoff fn sleep o w) = [] /\
   Retry.world (Retry.retryWithBackoff fn sleep o w) = w).
Proof.
  unfold Retry.retryWithBackoff. intros Hres.
  destruct (decide (0 <= Retry.maxRetries o)) as [Hm|Hm].
  - pose proof (loop_outcome (Z.to_nat (Retry.maxRetries o + 1)) 0 None w ltac:(lia)) as H.
    rewrite Hres in H. destruct H as [Hno Hlast].
    split; [done|]. split; [|lia]. intros _.
    destruct (Z.to_nat (Retry.maxRetries o + 1)) eqn:Hn; [lia|done].
  - replace (Z.to_nat (Retry.maxRetries o + 1)) with 0%nat in * by lia.
    simpl in *. injection Hres as <-.
    split; [intros k Hin; by apply elem_of_nil in Hin|]. split; [lia|done].
Qed.

(** X4.  With a non-negative initial delay and a factor of at least 1 the
    back-off never shrinks from one attempt to the next, and it never
    exceeds [maxDelay]. *)
Theorem retry_delay_monotone_capped attempt :
  0 <= Retry.initialDelay o -> 1 <= Retry.factor o -> 0 <= attempt ->
  Retry.delay o attempt <= Retry.delay o (attempt + 1) /\
  Retry.delay o attempt <= Retry.maxDelay o.
Proof.
  intros Hi Hf Ha. unfold Retry.delay. split; [|lia].
  assert (0 <= Retry.factor o ^ attempt) as Hp by (apply Z.pow_nonneg; lia).
  assert (Retry.factor o ^ (attempt + 1) = Retry.factor o * Retry.factor o ^ attempt) as ->
    by (rewrite Z.pow_add_r by lia; rewrite Z.pow_1_r; lia).
  assert (Retry.initialDelay o * Retry.factor o ^ attempt
          <= Retry.initialDelay o * (Retry.factor o * Retry.factor o ^ attempt)) by nia.
  lia.
Qed.

End RetryOutcomes.

Lemma retry_work_bounded_witness :
  Retry.total_sleep (Retry.trace (Retry.retryWithBackoff
                                    (Retry.always_rejects tt) Retry.no_sleep
                                    Retry.defaults tt))
  <= Z.max 0 (Retry.maxRetries Retry.defaults) * Retry.maxDelay Retry.defaults.
Proof.
  apply (retry_work_bounded (Retry.always_rejects tt) Retry.no_sleep Retry.defaults tt).
  simpl. lia.
Defined.

Lemma retry_stops_at_first_success_witness :
  exists l k,
    Retry.trace (Retry.retryWithBackoff Retry.fails_once (fun _ w => w) Retry.defaults 0%nat)
    = l ++ [Retry.EvCall k None] /\
    forall k', Retry.EvCall k' None ∉ l.
Proof.
  apply (retry_stops_at_first_success Retry.fails_once (fun _ w => w) Retry.defaults 0%nat 7).
  reflexivity.
Defined.

Lemma retry_throws_last_error_witness :
  exists e l,
    Some Retry.BusinessRejection = Some e /\
    Retry.trace (Retry.retryWithBackoff (Retry.always_rejects Retry.BusinessRejection)
                   Retry.no_sleep Retry.defaults tt)
    = l ++ [Retry.EvCall (Retry.maxRetries Retry.defaults) (Some e)].
Proof.
  apply (retry_throws_last_error (Retry.always_rejects Retry.BusinessRejection)
           Retry.no_sleep Retry.defaults tt (Some Retry.BusinessRejection));
    [reflexivity | simpl; lia].
Defined.

Lemma retry_delay_monotone_capped_witness :
  Retry.delay Retry.defaults 2 <= Retry.delay Retry.defaults (2 + 1) /\
  Retry.delay Retry.defaults 2 <= Retry.maxDelay Retry.defaults.
Proof.
  apply (retry_delay_monotone_capped Retry.defaults 2); simpl; lia.
Defined.

(* --------------------------------------------------------------------- *)
(** ** Bulkhead: queueing discipline                                      *)
(* --------------------------------------------------------------------- *)
Section BulkheadQueue.
Context {T : Type} `{EqDecision T}.
Implicit Types (b : Bulkhead.t T) (fn : T).

Lemma submit_all_reachable maxC (fns : list T) : forall b,
  Bulkhead.reachable maxC b -> Bulkhead.reachable maxC (Bulkhead.submit_all b fns).
Proof.
  induction fns as [|fn fns IH]; intros b Hr; [done|].
  simpl. apply IH. eapply rtc_r; [exact Hr|constructor].
Qed.

Lemma bulkhead_full_reachable maxC b :
  0 <= maxC -> Bulkhead.reachable maxC b ->
  Bulkhead.inv maxC b /\
  (Bulkhead.queue b <> [] -> Bulkhead.currentConcurrent b = maxC).
Proof.
  intros Hmax. unfold Bulkhead.reachable. revert b. apply rtc_ind_r.
  - split; [|done]. unfold Bulkhead.inv; simpl. lia.
  - intros b1 b2 _ Hstep [(Hm & Hc & Hle) Hq].
    destruct Hstep as [b1 fn|b1 fn Hin].
    + unfold Bulkhead.execute.
      destruct (Bulkhead.maxConcurrent b1 <=? Bulkhead.currentConcurrent b1) eqn:Hsat; simpl.
      * apply Z.leb_le in Hsat. split; [done|]. intros _. lia.
      * apply Z.leb_gt in Hsat. split.
        -- unfold Bulkhead.inv; simpl. rewrite length_app; simpl. lia.
        -- intros Hne. specialize (Hq Hne). lia.
    + pose proof (remove_first_length _ _ Hin) as Hlen.
      unfold Bulkhead.settle, Bulkhead._processQueue; simpl.
      destruct (Bulkhead.queue b1) as [|next rest] eqn:Hqueue; simpl.
      * split; [|done]. unfold Bulkhead.inv; simpl. lia.
      * specialize (Hq ltac:(done)).
        destruct (Bulkhead.currentConcurrent b1 - 1 <? Bulkhead.maxConcurrent b1) eqn:Hlt.
        -- simpl. split; [|lia]. unfold Bulkhead.inv; simpl.
           rewrite length_app; simpl. lia.
        -- apply Z.ltb_ge in Hlt. lia.
Qed.

(** X5.  In every state reached from [new Bulkhead(maxC)], [maxC >= 0],
    tasks wait in the queue only while the bulkhead is full: a non-empty
    queue implies [currentConcurrent = maxConcurrent]. *)
Theorem bulkhead_waits_only_when_full maxC b :
  0 <= maxC -> Bulkhead.reachable maxC b ->
  Bulkhead.queue b <> [] ->
  Bulkhead.currentConcurrent b = Bulkhead.maxConcurrent b.
Proof.
  intros Hmax Hr Hq. destruct (bulkhead_full_reachable maxC b Hmax Hr) as [(Hm & _) Hfull].
  rewrite Hm. by apply Hfull.
Qed.

(** X6.  The queue is served first in, first out: in a reachable state with
    a non-empty queue, the settlement of a running task always starts the
    task at the head of the queue, leaves the rest of the queue in order and
    leaves [currentConcurrent] as it was. *)
Theorem bulkhead_settle_starts_oldest maxC b fn next rest :
  0 <= maxC -> Bulkhead.reachable maxC b ->
  fn ∈ Bulkhead.running b ->
  Bulkhead.queue b = next :: rest ->
  Bulkhead.settle b fn
  = {| Bulkhead.maxConcurrent := Bulkhead.maxConcurrent b;
       Bulkhead.currentConcurrent := Bulkhead.currentConcurrent b;
       Bulkhead.queue := rest;
       Bulkhead.running := Bulkhead.remove_first fn (Bulkhead.running b) ++ [next] |}.
Proof.
  intros Hmax Hr Hin Hq.
  destruct (bulkhead_full_reachable maxC b Hmax Hr) as [(Hm & Hc & Hle) _].
  unfold Bulkhead.settle, Bulkhead._processQueue; simpl. rewrite Hq.
  destruct (Bulkhead.currentConcurrent b - 1 <? Bulkhead.maxConcurrent b) eqn:Hlt.
  - unfold Bulkhead._execute; simpl. f_equal. lia.
  - apply Z.ltb_ge in Hlt. lia.
Qed.

Lemma remove_first_perm fn (l : list T) :
  fn ∈ l -> fn :: Bulkhead.remove_first fn l ≡ₚ l.
Proof.
  induction l as [|x l IH]; intros Hin; [by apply elem_of_nil in Hin|].
  simpl. destruct (decide (x = fn)) as [->|Hne]; [done|].
  apply elem_of_cons in Hin as [->|Hin]; [done|].
  rewrite Permutation_swap. by rewrite IH.
Qed.

(** X7.  The bulkhead neither drops nor duplicates a task: after [execute]
    the running and queued tasks are those of before plus the submitted
    one; after the settlement of a running task they are those of before
    minus that one. *)
Theorem bulkhead_keeps_every_task b fn :
  Bulkhead.running (Bulkhead.execute b fn).1 ++ Bulkhead.queue (Bulkhead.execute b fn).1
  ≡ₚ fn :: Bulkhead.running b ++ Bulkhead.queue b /\
  (fn ∈ Bulkhead.running b ->
   fn :: Bulkhead.running (Bulkhead.settle b fn) ++ Bulkhead.queue (Bulkhead.settle b fn)
   ≡ₚ Bulkhead.running b ++ Bulkhead.queue b).
Proof.
  split.
  - unfold Bulkhead.execute.
    destruct (Bulkhead.maxConcurrent b <=? Bulkhead.currentConcurrent b); simpl.
    + rewrite app_assoc. by rewrite <- Permutation_cons_append.
    + rewrite <- app_assoc. simpl. by rewrite <- Permutation_middle.
  - intros Hin. apply remove_first_perm in Hin.
    unfold Bulkhead.settle, Bulkhead._processQueue; simpl.
    destruct (Bulkhead.queue b) as [|next rest]; simpl.
    + rewrite !app_nil_r. done.
    + destruct (Bulkhead.currentConcurrent b - 1 <? Bulkhead.maxConcurrent b); simpl.
      * rewrite <- app_assoc. simpl. by rewrite app_comm_cons, Hin.
      * by rewrite app_comm_cons, Hin.
Qed.

End BulkheadQueue.

Lemma bulkhead_waits_only_when_full_witness :
  Bulkhead.currentConcurrent (Bulkhead.submit_all (Bulkhead.new 1) [1%nat; 2%nat])
  = Bulkhead.maxConcurrent (Bulkhead.submit_all (Bulkhead.new 1) [1%nat; 2%nat]).
Proof.
  apply (bulkhead_waits_only_when_full 1
           (Bulkhead.submit_all (Bulkhead.new 1) [1%nat; 2%nat])).
  - lia.
  - apply submit_all_reachable, rtc_refl.
  - vm_compute. discriminate.
Defined.

Lemma bulkhead_settle_starts_oldest_witness :
  let b := Bulkhead.submit_all (Bulkhead.new 1) [1%nat; 2%nat; 3%nat] in
  Bulkhead.settle b 1%nat
  = {| Bulkhead.maxConcurrent := Bulkhead.maxConcurrent b;
       Bulkhead.currentConcurrent := Bulkhead.currentConcurrent b;
       Bulkhead.queue := [3%nat];
       Bulkhead.running := Bulkhead.remove_first 1%nat (Bulkhead.running b) ++ [2%nat] |}.
Proof.
  intros b.
  apply (bulkhead_settle_starts_oldest 1 b 1%nat 2%nat [3%nat]).
  - lia.
  - apply submit_all_reachable, rtc_refl.
  - vm_compute. apply list_elem_of_here.
  - reflexivity.
Defined.

Lemma bulkhead_keeps_every_task_witness :
  let b := Bulkhead.submit_all (Bulkhead.new 1) [1%nat; 2%nat] in
  1%nat :: Bulkhead.running (Bulkhead.settle b 1%nat)
           ++ Bulkhead.queue (Bulkhead.settle b 1%nat)
  ≡ₚ Bulkhead.running b ++ Bulkhead.queue b.
Proof.
  intros b.
  apply (proj2 (bulkhead_keeps_every_task b 1%nat)).
  vm_compute. apply list_elem_of_here.
Defined.

(* --------------------------------------------------------------------- *)
(** ** Inventory service: what a request touches                          *)
(* --------------------------------------------------------------------- *)
Section InventarioRequests.
Import Inventario.

Lemma clave_inj e e' : clave e = clave e' -> e = e'.
Proof. unfold clave. intros H. cbv [String.append] in H. by injection H. Qed.

Lemma reservarEnMemoria_error st e c st' s msg :
  reservarEnMemoria st e c = (st', JsonError s msg) -> st' = st.
Proof.
  unfold reservarEnMemoria. destruct (inventarioMemoria st !! e) as [ev|]; [|by intros [= <-]].
  destruct (asientosDisponibles ev <? c); [by intros [= <-]|done].
Qed.

Lemma liberarEnMemoria_error st e c st' s msg :
  liberarEnMemoria st e c = (st', JsonError s msg) -> st' = st.
Proof.
  unfold liberarEnMemoria. destruct (inventarioMemoria st !! e) as [ev|]; [done|by intros [= <-]].
Qed.

(** X8.  A reserve or a release that is answered with an error (400, 404,
    409) leaves the seats of every event as they were, in Redis and in
    memory. *)
Theorem refused_requests_leave_stock st e cantidad up1 up2 st' s msg :
  reservar st e cantidad up1 = (st', JsonError s msg) \/
  liberar st e cantidad up1 up2 = (st', JsonError s msg) ->
  redisStore st' = redisStore st /\ inventarioMemoria st' = inventarioMemoria st.
Proof.
  intros [Hr|Hl].
  - unfold reservar in Hr. destruct cantidad as [c|]; [|by injection Hr as <-].
    destruct (cantidad_invalida (Some c)); [by injection Hr as <-|].
    destruct (redisConnected st); simpl in Hr.
    + destruct (if up1 then script (redisStore st) (clave e) c
                else (redisStore st, Rejected "Connection is closed."))
        as [store' [r|err]]; [done|].
      by apply reservarEnMemoria_error in Hr as ->.
    + by apply reservarEnMemoria_error in Hr as ->.
  - unfold liberar in Hl. destruct cantidad as [c|]; [|by injection Hl as <-].
    destruct (cantidad_invalida (Some c)); [by injection Hl as <-|].
    destruct (redisConnected st) eqn:Hflag.
    + destruct up1.
      * destruct (redisStore st !! clave e) as [ev|]; [|by injection Hl as <-].
        unfold liberar_tras_set in Hl. destruct up2; simpl in Hl.
        -- by rewrite Hflag in Hl.
        -- by apply liberarEnMemoria_error in Hl as ->.
      * by apply liberarEnMemoria_error in Hl as ->.
    + by apply liberarEnMemoria_error in Hl as ->.
Qed.

Lemma reservarEnMemoria_otros st e c e' :
  e' <> e ->
  inventarioMemoria (reservarEnMemoria st e c).1 !! e' = inventarioMemoria st !! e' /\
  redisStore (reservarEnMemoria st e c).1 = redisStore st.
Proof.
  intros Hne. unfold reservarEnMemoria.
  destruct (inventarioMemoria st !! e) as [ev|]; [|done].
  destruct (asientosDisponibles ev <? c); [done|]. simpl.
  by rewrite lookup_insert_ne.
Qed.

Lemma liberarEnMemoria_otros st e c e' :
  e' <> e ->
  inventarioMemoria (liberarEnMemoria st e c).1 !! e' = inventarioMemoria st !! e' /\
  redisStore (liberarEnMemoria st e c).1 = redisStore st.
Proof.
  intros Hne. unfold liberarEnMemoria.
  destruct (inventarioMemoria st !! e) as [ev|]; [|done]. simpl.
  by rewrite lookup_insert_ne.
Qed.

(** X9.  A reserve or a release for one event never changes the record of
    another event, in Redis or in memory, whatever its outcome. *)
Theorem other_events_untouched st e cantidad up1 up2 e' :
  e' <> e ->
  (redisStore (reservar st e cantidad up1).1 !! clave e' = redisStore st !! clave e' /\
   inventarioMemoria (reservar st e cantidad up1).1 !! e' = inventarioMemoria st !! e') /\
  (redisStore (liberar st e cantidad up1 up2).1 !! clave e' = redisStore st !! clave e' /\
   inventarioMemoria (liberar st e cantidad up1 up2).1 !! e' = inventarioMemoria st !! e').
Proof.
  intros Hne. assert (clave e <> clave e') as Hk by (intros Hk; by apply clave_inj in Hk).
  split.
  - unfold reservar. destruct cantidad as [c|]; [|done].
    destruct (cantidad_invalida (Some c)); [done|].
    destruct (redisConnected st); simpl.
    + destruct up1.
      * unfold script. destruct (redisStore st !! clave e) as [ev|].
        -- destruct (asientosDisponibles ev <? c).
           ++ destruct (reservarEnMemoria_otros (con_redisConnected st false) e c e' Hne)
                as [-> ->]. done.
           ++ simpl. by rewrite lookup_insert_ne.
        -- destruct (reservarEnMemoria_otros (con_redisConnected st false) e c e' Hne)
             as [-> ->]. done.
      * destruct (reservarEnMemoria_otros (con_redisConnected st false) e c e' Hne)
          as [-> ->]. done.
    + destruct (reservarEnMemoria_otros st e c e' Hne) as [-> ->]. done.
  - unfold liberar. destruct cantidad as [c|]; [|done].
    destruct (cantidad_invalida (Some c)); [done|].
    destruct (redisConnected st) eqn:Hflag.
    + destruct up1.
      * destruct (redisStore st !! clave e) as [ev|]; [|done].
        unfold liberar_tras_set. destruct up2; simpl.
        -- rewrite Hflag. simpl. by rewrite lookup_insert_ne.
        -- destruct (liberarEnMemoria_otros (con_redisConnected st false) e c e' Hne)
             as [-> ->]. done.
      * destruct (liberarEnMemoria_otros (con_redisConnected st false) e c e' Hne)
          as [-> ->]. done.
    + destruct (liberarEnMemoria_otros st e c e' Hne) as [-> ->]. done.
Qed.

(** X10.  While Redis is connected, a reserve that Redis cannot grant (the
    event is sold out there, or unknown) is not refused: the rejection of
    the script is handled like a lost connection, so the request is served
    from the memory copy, which the reserves made through Redis never
    decremented.  It is answered 200, Redis is left as it was and
    [redisConnected] is cleared. *)
Theorem redis_shortage_sells_from_memory st e c evm :
  redisConnected st = true ->
  0 < c ->
  (forall evr, redisStore st !! clave e = Some evr -> asientosDisponibles evr < c) ->
  inventarioMemoria st !! e = Some evm ->
  c <= asientosDisponibles evm ->
  (reservar st e (Some c) true).2 = Json200 (asientosDisponibles evm - c) /\
  redisConnected (reservar st e (Some c) true).1 = false /\
  redisStore (reservar st e (Some c) true).1 = redisStore st.
Proof.
  intros Hflag Hc Hredis Hmem Hseats. unfold reservar.
  assert (cantidad_invalida (Some c) = false) as ->.
  { unfold cantidad_invalida. apply orb_false_intro; lia. }
  rewrite Hflag. simpl.
  assert (exists msg, script (redisStore st) (clave e) c = (redisStore st, Rejected msg))
    as [msg ->].
  { unfold script. destruct (redisStore st !! clave e) as [evr|] eqn:Hr; [|by eauto].
    specialize (Hredis evr eq_refl). apply Z.ltb_lt in Hredis. rewrite Hredis. by eauto. }
  unfold reservarEnMemoria. simpl. rewrite Hmem.
  assert ((asientosDisponibles evm <? c) = false) as -> by (apply Z.ltb_ge; lia).
  done.
Qed.



Lemma inicial_es_inicializar conectado :
  inicial conectado
  = inicializarInventario {| redisConnected := conectado; redisStore := ∅;
                             inventarioMemoria := ∅ |}.
Proof. by destruct conectado. Qed.

Lemma inicializar_stores st :
  inicializarInventario st
  = {| redisConnected := redisConnected st;
       redisStore :=
         if redisConnected st
         then foldl (fun m ev => <[clave (id ev) := ev]> m) (redisStore st) eventos
         else redisStore st;
       inventarioMemoria := foldl (fun m ev => <[id ev := ev]> m) (inventarioMemoria st) eventos |}.
Proof. by destruct st as [[|] r m]. Qed.

(** X13.  [inicializarInventario] run on any state (it runs again when Redis
    connects) puts every event of the catalogue back to its initial number
    of seats, whatever had been reserved, and leaves the events outside the
    catalogue untouched in both stores. *)
Theorem inicializar_resets st e :
  match totalUnits e with
  | Some t => (consultar (inicializarInventario st) e true).2 = Some t
  | None =>
      inventarioMemoria (inicializarInventario st) !! e = inventarioMemoria st !! e /\
      redisStore (inicializarInventario st) !! clave e = redisStore st !! clave e
  end.
Proof.
  destruct (totalUnits e) as [t|] eqn:Ht;
    unfold totalUnits, inicial, eventos in Ht; cbn [inventarioMemoria foldl id] in Ht;
    rewrite inicializar_stores; unfold consultar, eventos;
    cbn [foldl redisConnected redisStore inventarioMemoria id];
    rewrite !lookup_insert in Ht.
  - destruct (redisConnected st) eqn:Hflag; cbn -[insert lookup]; rewrite !lookup_insert.
    + repeat case_decide; simplify_eq/=; try done;
        try (match goal with H : clave _ = clave _ |- _ => apply clave_inj in H end; done);
        try (match goal with H : clave ?a <> clave ?a |- _ => by destruct H end).
    + repeat case_decide; simplify_eq/=; done.
  - rewrite !lookup_insert.
    destruct (redisConnected st); rewrite ?lookup_insert;
      repeat case_decide; simplify_eq/=; try done;
      try (match goal with H : clave _ = clave _ |- _ => apply clave_inj in H end; done).
Qed.

(** X14.  POST /admin/simular-fallo cannot switch the failure simulation on
    or off: whatever the sequence of such requests, the middleware treats
    requests as it did when the service started.  In a service started
    without SIMULAR_FALLO=true every such request is answered, with
    [simulandoFallo] as requested, and changes only [process.env]; in a
    service started with SIMULAR_FALLO=true the middleware leaves them
    without an answer like every other request, so that nothing changes at
    all and the simulation cannot be switched off. *)
Theorem failure_switch_has_no_effect env (reqs : list bool) :
  let final := foldl (fun i r => (post_simular_fallo i r).1) (arranque env) reqs in
  middleware final = negb (bool_decide (env = "true")) /\
  (env <> "true" ->
   forall activar,
     post_simular_fallo final activar
     = ({| SIMULAR_FALLO := false;
           env_SIMULAR_FALLO := if activar then "true" else "false" |}, Some activar)) /\
  (env = "true" ->
   final = arranque env /\
   forall activar, post_simular_fallo final activar = (final, None)).
Proof.
  cbv zeta.
  assert (forall i, SIMULAR_FALLO (foldl (fun i r => (post_simular_fallo i r).1) i reqs)
                    = SIMULAR_FALLO i) as Hconst.
  { induction reqs as [|r reqs IH]; intros i; [done|]. cbn [foldl]. rewrite IH.
    unfold post_simular_fallo, middleware. by destruct (SIMULAR_FALLO i) eqn:Hi. }
  split; [|split].
  - unfold middleware. by rewrite Hconst.
  - intros Henv activar.
    assert (SIMULAR_FALLO (foldl (fun i r => (post_simular_fallo i r).1) (arranque env) reqs)
            = false) as Hf.
    { rewrite Hconst. unfold arranque. cbn [SIMULAR_FALLO]. by rewrite bool_decide_eq_false_2. }
    unfold post_simular_fallo at 1. unfold middleware, simular_fallo. by rewrite Hf.
  - intros ->.
    assert (forall i, SIMULAR_FALLO i = true ->
                      foldl (fun i r => (post_simular_fallo i r).1) i reqs = i) as Hfix.
    { clear Hconst. induction reqs as [|r reqs IH]; intros i Hi; [done|]. cbn [foldl].
      unfold post_simular_fallo at 2. unfold middleware. rewrite Hi. cbn. by apply IH. }
    rewrite (Hfix (arranque "true") eq_refl). split; [done|].
    intros activar. done.
Qed.

End InventarioRequests.

Lemma failure_switch_has_no_effect_witness :
  let final :=
    foldl (fun i r => (Inventario.post_simular_fallo i r).1)
      (Inventario.arranque "true") [false; false] in
  final = Inventario.arranque "true" /\
  Inventario.post_simular_fallo final false = (final, None).
Proof.
  intros final.
  destruct (proj2 (proj2 (failure_switch_has_no_effect "true" [false; false])) eq_refl)
    as [H1 H2].
  split; [exact H1|exact (H2 false)].
Defined.

Lemma refused_requests_leave_stock_witness :
  Inventario.redisStore (Inventario.inicial false) = Inventario.redisStore (Inventario.inicial false) /\
  Inventario.inventarioMemoria (Inventario.inicial false)
  = Inventario.inventarioMemoria (Inventario.inicial false).
Proof.
  apply (refused_requests_leave_stock (Inventario.inicial false) "evento-4" (Some 5)
           true true (Inventario.inicial false) 409 "Insufficient seats").
  left. vm_compute. reflexivity.
Defined.

Lemma other_events_untouched_witness :
  Inventario.inventarioMemoria
    (Inventario.reservar (Inventario.inicial false) "evento-4" (Some 1) true).1
    !! "evento-1"
  = Inventario.inventarioMemoria (Inventario.inicial false) !! "evento-1".
Proof.
  apply (other_events_untouched (Inventario.inicial false) "evento-4" (Some 1)
           true true "evento-1").
  discriminate.
Defined.

Lemma redis_shortage_sells_from_memory_witness :
  let st := (Inventario.reservar (Inventario.inicial true) "evento-4" (Some 1) true).1 in
  (Inventario.reservar st "evento-4" (Some 1) true).2 = Inventario.Json200 (1 - 1).
Proof.
  intros st.
  apply (redis_shortage_sells_from_memory st "evento-4" 1
           {| Inventario.id := "evento-4"; Inventario.nombre := "Stand-up Comedy";
              Inventario.asientosDisponibles := 1; Inventario.precio := 25 |}).
  - reflexivity.
  - lia.
  - intros evr Hr. vm_compute in Hr. injection Hr as <-. simpl. lia.
  - vm_compute. reflexivity.
  - simpl. lia.
Defined.


(* --------------------------------------------------------------------- *)
(** ** Reservations service: cache, lock and answers                      *)
(* --------------------------------------------------------------------- *)
Section ReservasAnswers.
Import Reservas.

Ltac casos :=
  repeat match goal with
    | |- context [if ?b then _ else _] => destruct b; ejecuta
    end.

(** X15.  A live read followed by a failed read of the same event less than
    the TTL later returns the data of the live read, field by field, marked
    [fromCache]; the live read changes the cache entry of no other
    event. *)
Theorem cache_round_trip (cache : gmap string CacheEntry) evId d t0 e t1 :
  t1 - t0 < INVENTARIO_CACHE_TTL ->
  consultarInventario (consultarInventario cache evId (Resolved d) t0).1 evId (Rejected e) t1
  = (<[evId := {| data := d; timestamp := t0 |}]> cache,
     Resolved {| eventoId := eventoId d; nombre := nombre d;
                 asientosDisponibles := asientosDisponibles d; precio := precio d;
                 disponible := disponible d; fromCache := true |}) /\
  (forall evId', evId' <> evId ->
     (consultarInventario cache evId (Resolved d) t0).1 !! evId' = cache !! evId').
Proof.
  intros Hage. apply Z.ltb_lt in Hage. unfold consultarInventario. cbn [fst]. split.
  - rewrite lookup_insert_eq. cbn [timestamp data]. by rewrite Hage.
  - intros evId' Hne. by rewrite lookup_insert_ne.
Qed.

(** X16.  Whatever the collaborators do, POST /reservas calls
    [lock.release()] at least once when it acquired the lock, and neither
    acquires nor releases when there is no lock client. *)
Theorem lock_always_released st req env :
  (redlock env = true -> acquire env = Resolved tt ->
   In ReleaseLock (post_reservas st req env).1.2) /\
  (redlock env = false ->
   ~ In AcquireLock (post_reservas st req env).1.2 /\
   ~ In ReleaseLock (post_reservas st req env).1.2).
Proof.
  split.
  - intros Hlock Hacq. unfold post_reservas, post_reservas_M. rewrite Hlock. ejecuta.
    rewrite Hacq. ejecuta.
    destruct (consultarInventario _ _ _ _) as [cache' [inv|ei]] eqn:Hc; ejecuta;
    destruct (release env) as [[]|er]; ejecuta; casos; cbn; auto 10;
    destruct (post_reservar env) as [[]|ep]; ejecuta; casos; cbn; auto 10;
    destruct (pago env) as [pd|epago]; ejecuta;
    destruct (post_liberar env) as [[]|el]; ejecuta;
    destruct (post_notificar env) as [[]|en]; ejecuta; casos; cbn; auto 20.
  - intros Hlock. unfold post_reservas, post_reservas_M. rewrite Hlock. ejecuta.
    destruct (consultarInventario _ _ _ _) as [cache' [inv|ei]] eqn:Hc; ejecuta;
    casos; cbn; try (split; intros H; intuition discriminate);
    destruct (post_reservar env) as [[]|ep]; ejecuta; casos; cbn;
    try (split; intros H; intuition discriminate);
    destruct (pago env) as [pd|epago]; ejecuta;
    destruct (post_liberar env) as [[]|el]; ejecuta;
    destruct (post_notificar env) as [[]|en]; ejecuta; casos; cbn;
    split; intros H; intuition discriminate.
Qed.

(** X17.  When POST /reservas answers with a reservation, the status is 201,
    GET /reservas/:id returns that very record under the request's id, in
    state "confirmada", the seats were reserved and the payment was
    requested for the record's amount, and no release of seats was sent. *)
Theorem created_means_stored st req env s r :
  (post_reservas st req env).2 = Exito s r ->
  s = 201 /\
  get_reserva (post_reservas st req env).1.1 (reservaId env) = Some r /\
  estado r = "confirmada" /\
  id r = reservaId env /\
  In (Pago (monto r)) (post_reservas st req env).1.2 /\
  In (PostReservar (r_asientos r)) (post_reservas st req env).1.2 /\
  (forall c, ~ In (PostLiberar c) (post_reservas st req env).1.2).
Proof.
  unfold post_reservas, post_reservas_M, get_reserva. ejecuta.
  destruct (redlock env);
  destruct (acquire env) as [[]|ea];
  destruct (release env) as [[]|er];
  ejecuta; casos; try done;
  destruct (consultarInventario _ _ _ _) as [cache' [inv|ei]] eqn:Hc;
  ejecuta; casos; try done;
  destruct (post_reservar env) as [[]|ep]; ejecuta; casos; try done;
  destruct (pago env) as [pd|epago]; ejecuta;
  destruct (post_liberar env) as [[]|el]; ejecuta;
  destruct (post_notificar env) as [[]|en]; ejecuta; casos; try done;
  intros [= <- <-]; cbn; rewrite lookup_insert_eq;
  (repeat split; auto 10); intros c H; intuition discriminate.
Qed.

(** X18.  If everything succeeds but the final [lock.release()] rejects, the
    client is answered an error (500, or 409 when the message of the
    rejection contains "lock"), while the reservation stays stored as
    confirmed and paid and no seat is released. *)
Theorem failed_release_hides_success st req env inv pd er :
  (consultarInventario (inventarioCache st) (p_eventoId req)
     (get_inventario env) (ahora env)).2 = Resolved inv ->
  disponible inv = true ->
  asientos req <= asientosDisponibles inv ->
  redlock env = true -> acquire env = Resolved tt ->
  post_reservar env = Resolved tt ->
  pago env = Resolved pd ->
  release env = Rejected er ->
  (exists msg, (post_reservas st req env).2 = Fallo 500 msg \/
               (post_reservas st req env).2 = Fallo 409 msg) /\
  get_reserva (post_reservas st req env).1.1 (reservaId env)
  = Some (nueva_reserva env req inv pd) /\
  (forall c, ~ In (PostLiberar c) (post_reservas st req env).1.2).
Proof.
  intros Hinv Hdisp Hseats Hlock Hacq Hres Hpago Hrel.
  destruct (consultarInventario _ _ _ _) as [cache' r] eqn:Hc. simpl in Hinv. subst r.
  assert ((asientosDisponibles inv <? asientos req) = false) as Hlt
    by (apply Z.ltb_ge; lia).
  unfold post_reservas, post_reservas_M, get_reserva. rewrite Hlock. ejecuta.
  rewrite Hacq. ejecuta. rewrite Hc. ejecuta. rewrite Hdisp, Hlt. ejecuta.
  rewrite Hres. ejecuta. rewrite Hpago. ejecuta.
  destruct (post_notificar env) as [[]|en]; ejecuta; rewrite Hrel; ejecuta; casos;
    cbn; rewrite lookup_insert_eq;
    (split; [eexists; eauto|]); (split; [done|]); intros c H; intuition discriminate.
Qed.

Lemma delete_reserva_cancelada st rid env r :
  reservas st !! rid = Some r -> estado r = "cancelada" ->
  delete_reserva st rid env = (st, Fallo 409 "Reservation already cancelled").
Proof.
  intros Hr Hest. unfold delete_reserva. rewrite Hr. by rewrite bool_decide_eq_true_2.
Qed.

(** X19.  DELETE /reservas/:id changes the state only when it answers 200.
    After a 200 the record is "cancelada" and is what GET /reservas/:id
    returns, and a second DELETE of the same id, whatever the collaborators
    do, is answered 409 "Reservation already cancelled" and changes
    nothing. *)
Theorem cancel_twice st rid env env2 :
  (forall s msg, (delete_reserva st rid env).2 = Fallo s msg ->
     (delete_reserva st rid env).1 = st) /\
  (forall s r, (delete_reserva st rid env).2 = Exito s r ->
     s = 200 /\ estado r = "cancelada" /\
     get_reserva (delete_reserva st rid env).1 rid = Some r /\
     delete_reserva (delete_reserva st rid env).1 rid env2
     = ((delete_reserva st rid env).1, Fallo 409 "Reservation already cancelled")).
Proof.
  destruct (delete_reserva st rid env) as [st' resp] eqn:Hd. cbn [fst snd].
  unfold delete_reserva in Hd.
  destruct (reservas st !! rid) as [r0|] eqn:Hr; [|by injection Hd as <- <-].
  case_bool_decide as Hest; [by injection Hd as <- <-|].
  destruct (post_reembolsar env) as [[]|], (c_post_liberar env) as [[]|];
    injection Hd as <- <-; (split; [done|]); try done.
  intros s r [= <- <-]. split; [done|]. split; [done|].
  unfold get_reserva. cbn [reservas]. rewrite lookup_insert_eq. split; [done|].
  eapply delete_reserva_cancelada; [cbn [reservas]; apply lookup_insert_eq|done].
Qed.

Lemma reservar_cantidad_no_positiva sti evId c up :
  c <= 0 ->
  Inventario.reservar sti evId (Some c) up = (sti, Inventario.JsonError 400 "Invalid quantity").
Proof.
  intros Hc. unfold Inventario.reservar, Inventario.cantidad_invalida.
  assert ((c <=? 0) = true) as -> by (apply Z.leb_le; lia).
  by rewrite orb_true_r.
Qed.

(** X20.  A request for zero or a negative number of seats passes the
    availability check of POST /reservas.  The inventory service refuses it
    with 400 "Invalid quantity" and changes nothing; [inventarioClient]
    sends it again after 1000 and after 2000 ms, three times in all, and
    the breaker's 3000 ms pass before the last refusal is back.  The client
    of POST /reservas is answered 500, not 400, after 3000 ms; no payment
    is requested and no record is stored. *)
Theorem invalid_quantity_is_answered_500 st sti req env inv up (p : Peer Z) clock :
  (consultarInventario (inventarioCache st) (p_eventoId req)
     (get_inventario env) (ahora env)).2 = Resolved inv ->
  disponible inv = true ->
  asientos req <= 0 ->
  0 <= asientosDisponibles inv ->
  (redlock env = true -> acquire env = Resolved tt /\ release env = Resolved tt) ->
  0 < latency p <= timeout inventarioClient ->
  reply p
  = axios_inventario (Inventario.reservar sti (p_eventoId req) (Some (asientos req)) up).2 ->
  post_reservar env = sin_datos (fire inventarioClient p clock) ->
  Inventario.reservar sti (p_eventoId req) (Some (asientos req)) up
  = (sti, Inventario.JsonError 400 "Invalid quantity") /\
  Retry.calls (Retry.trace (Retry.retryWithBackoff (request inventarioClient p)
                              (fun d t => t + d)
                              (opciones_reintento inventarioClient) clock)) = [0; 1; 2] /\
  fire inventarioClient p clock
  = (clock + 3000,
     Rejected {| message := "Timed out after 3000ms"; code := Some "ETIMEDOUT"%string;
                 response_status := None |}) /\
  (post_reservas st req env).2
  = (if redlock env then Fallo 500 "Error reserving seats"
     else Fallo 500 "Error processing reservation") /\
  reservas (post_reservas st req env).1.1 = reservas st /\
  (forall m, ~ In (Pago m) (post_reservas st req env).1.2).
Proof.
  intros Hinv Hdisp Hneg Hpos Hlockok [Hlat Hlat'] Hreply Hpost.
  pose proof (reservar_cantidad_no_positiva sti (p_eventoId req) (asientos req) up Hneg)
    as H400.
  rewrite H400 in Hreply. cbn [snd axios_inventario] in Hreply.
  assert (forall t, request inventarioClient p t = (t + latency p, reply p)) as Hreq.
  { intros t. unfold request.
    assert ((timeout inventarioClient <? latency p) = false) as ->
      by (apply Z.ltb_ge; lia).
    done. }
  rewrite Hreply in Hreq.
  destruct (retry_inventario_rechazado p clock (latency p) _ Hreq) as (_ & _ & Hcalls).
  pose proof (inventarioClient_rechazado p clock (latency p) _ Hlat Hreq) as Hfire.
  rewrite Hfire in Hpost. unfold sin_datos in Hpost. cbn [snd] in Hpost.
  split; [done|]. split; [done|]. split; [done|].
  destruct (consultarInventario _ _ _ _) as [cache' r] eqn:Hc. simpl in Hinv. subst r.
  assert ((asientosDisponibles inv <? asientos req) = false) as Hlt
    by (apply Z.ltb_ge; lia).
  assert (exists cache2 acc,
            post_reservas st req env
            = ({| inventarioCache := cache2; reservas := reservas st |}, acc,
               if redlock env then Fallo 500 "Error reserving seats"
               else Fallo 500 "Error processing reservation") /\
            forall m, ~ In (Pago m) acc) as (cache2 & acc & Hpr & Hno).
  { unfold post_reservas, post_reservas_M.
    destruct (redlock env) eqn:Hlock.
    - destruct (Hlockok eq_refl) as [Hacq Hrel]. ejecuta. rewrite Hacq. ejecuta.
      rewrite Hc. ejecuta. rewrite Hdisp, Hlt. ejecuta. rewrite Hpost. ejecuta.
      rewrite Hrel. ejecuta. cbn [response_status bool_decide decide_rel].
      eexists _, _. split; [reflexivity|]. cbn. intros m H. intuition discriminate.
    - ejecuta. rewrite Hc. ejecuta. rewrite Hdisp, Hlt. ejecuta. rewrite Hpost. ejecuta.
      rewrite TypeError_release_sin_lock.
      eexists _, _. split; [reflexivity|]. cbn. intros m H. intuition discriminate. }
  rewrite Hpr. cbn [fst snd reservas]. done.
Qed.

Lemma retry_of_timeouts (p : Peer PagoData) clock :
  timeout pagosClient < latency p ->
  Retry.world (Retry.retryWithBackoff (request pagosClient p) (fun d t => t + d)
                 (opciones_reintento pagosClient) clock)
  = clock + 25000 + 1000 + 25000 /\
  Retry.result (Retry.retryWithBackoff (request pagosClient p) (fun d t => t + d)
                  (opciones_reintento pagosClient) clock)
  = Rejected (Some {| message := "timeout of " +:+ pretty (timeout pagosClient)
                                 +:+ "ms exceeded";
                      code := Some "ECONNABORTED"%string; response_status := None |}).
Proof.
  intros Hlat. unfold Retry.retryWithBackoff. change (Z.to_nat _) with 2%nat.
  cbn [Retry.loop]. rewrite !(request_timeout pagosClient p _ Hlat). by split.
Qed.

(** X21.  Against a payment service slower than the 25 s of [pagosClient],
    the payment call ends after 25 s with the breaker's own "Timed out"
    error (the request timeouts and the retry run past the breaker's
    deadline); [procesarPago] does not recognise it as a timeout, so no
    TIMEOUT_PAGO is raised, and POST /reservas, after sending the release of
    the seats, answers 402 "Payment rejected" rather than 408. *)
Theorem payment_timeout_is_answered_402 st req env inv (p : Peer PagoData) clock :
  timeout pagosClient < latency p ->
  (consultarInventario (inventarioCache st) (p_eventoId req)
     (get_inventario env) (ahora env)).2 = Resolved inv ->
  disponible inv = true ->
  asientos req <= asientosDisponibles inv ->
  (redlock env = true -> acquire env = Resolved tt /\ release env = Resolved tt) ->
  post_reservar env = Resolved tt ->
  pago env = (procesarPago_tarea pagosClient p clock).2 ->
  (procesarPago_tarea pagosClient p clock).1 = clock + 25000 /\
  (exists e, (procesarPago_tarea pagosClient p clock).2 = Rejected e /\
             code e = Some "ETIMEDOUT"%string /\
             includes (message e) "TIMEOUT_PAGO" = false) /\
  (post_reservas st req env).2 = Fallo 402 "Payment rejected" /\
  In (PostLiberar (asientos req)) (post_reservas st req env).1.2.
Proof.
  intros Hlat Hinv Hdisp Hseats Hlockok Hres Hpago.
  assert (procesarPago_tarea pagosClient p clock
          = (clock + 25000,
             Rejected {| message := "Timed out after 25000ms";
                         code := Some "ETIMEDOUT"%string; response_status := None |})) as Htarea.
  { pose proof (retry_of_timeouts p clock Hlat) as [Hw Hr].
    unfold procesarPago_tarea, fire. cbv zeta. rewrite Hw, Hr.
    assert ((breaker_timeout pagosClient <? clock + 25000 + 1000 + 25000 - clock) = true)
      as -> by (apply Z.ltb_lt; simpl; lia).
    by vm_compute. }
  rewrite Htarea in *. cbn [fst snd] in *.
  split; [done|]. split; [eexists; split; [done|]; split; [done|by vm_compute]|].
  destruct (consultarInventario _ _ _ _) as [cache' r] eqn:Hc. simpl in Hinv. subst r.
  assert ((asientosDisponibles inv <? asientos req) = false) as Hlt
    by (apply Z.ltb_ge; lia).
  split;
    unfold post_reservas, post_reservas_M;
    (destruct (redlock env) eqn:Hlock;
     [destruct (Hlockok eq_refl) as [Hacq Hrel]; ejecuta; rewrite Hacq; ejecuta|ejecuta]);
    rewrite Hc; ejecuta; rewrite Hdisp, Hlt; ejecuta; rewrite Hres; ejecuta;
    rewrite Hpago; ejecuta;
    destruct (post_liberar env) as [[]|el]; ejecuta; rewrite ?Hrel; ejecuta;
    cbn; auto 10.
Qed.

End ReservasAnswers.

(* --------------------------------------------------------------------- *)
(** ** Notifications and payment services                                 *)
(* --------------------------------------------------------------------- *)
Section NotificacionesFacts.
Import Notificaciones.

Lemma enviar_numeradas l b now : numeradas l -> numeradas (enviar l b now).1.
Proof.
  intros Hl i n. unfold enviar. cbn [fst]. intros Hi.
  apply lookup_app_Some in Hi as [Hi|[Hge Hi]]; [by apply Hl|].
  apply list_lookup_singleton_Some in Hi as [Hi <-]. simpl. lia.
Qed.

Lemma enviar_todas_numeradas bs : forall l,
  numeradas l ->
  numeradas (enviar_todas l bs) /\
  length (enviar_todas l bs) = (length l + length bs)%nat.
Proof.
  induction bs as [|b bs IH]; intros l Hl; simpl.
  - split; [done|lia].
  - destruct (IH (enviar l b.1 b.2).1 (enviar_numeradas l b.1 b.2 Hl)) as [Hn Hlen].
    split; [done|]. unfold enviar_todas in *. simpl in *. rewrite Hlen.
    rewrite length_app. simpl. lia.
Qed.

(** X22.  After any sequence of POST /notificaciones/enviar, one record is
    stored per request, the record at position [i] (from 0) has id [i + 1],
    and no two stored notifications share an id. *)
Theorem notification_ids_are_sequential bs :
  length (enviar_todas [] bs) = length bs /\
  (forall (i : nat) n, enviar_todas [] bs !! i = Some n -> id n = Z.of_nat i + 1) /\
  NoDup (id <$> enviar_todas [] bs).
Proof.
  destruct (enviar_todas_numeradas bs []) as [Hn Hlen].
  { intros i n Hi. by rewrite lookup_nil in Hi. }
  split; [done|]. split; [done|].
  apply NoDup_alt. intros i j x Hi Hj.
  rewrite list_lookup_fmap in Hi, Hj.
  destruct (enviar_todas [] bs !! i) as [ni|] eqn:Hli; [|done].
  destruct (enviar_todas [] bs !! j) as [nj|] eqn:Hlj; [|done].
  simpl in Hi, Hj. apply Hn in Hli, Hlj. simplify_eq. lia.
Qed.

End NotificacionesFacts.

Section PagosFacts.
Import Pagos.

Lemma procesar_validas m b exito tid now m' r :
  procesar m b exito tid now = Some (m', r) ->
  transacciones_validas m -> transacciones_validas m'.
Proof.
  intros Hp Hm. unfold procesar in Hp.
  destruct (b_reservaId b) as [rid|], (b_monto b) as [mo|], (b_metodoPago b) as [mp|],
    (b_usuario b) as [u|]; try (by injection Hp as <- <-).
  destruct (Json.truthy mo) eqn:Htruthy; cbn [negb] in Hp.
  2:{ rewrite orb_true_r in Hp. cbn in Hp. by injection Hp as <- <-. }
  destruct (_ || _ || _ || _); [by injection Hp as <- <-|].
  destruct (Json.no_positivo mo) as [[|]|] eqn:Hle; cbn in Hp; try done.
  { by injection Hp as <- <-. }
  destruct exito; cbn in Hp; injection Hp as <- <-; [|done].
  apply map_Forall_insert_2; [|done]. cbn. auto.
Qed.

Lemma reembolsar_asigna_validas m tid motivo now m' r :
  reembolsar_asigna m tid motivo now = Some (m', r) ->
  transacciones_validas m -> transacciones_validas m'.
Proof.
  unfold reembolsar_asigna. destruct (m !! tid) as [t|] eqn:Ht; [|done]. cbn.
  intros [= <- <-] Hm. destruct (Hm _ _ Ht) as (Hid & H1 & H2 & _).
  apply map_Forall_insert_2; [|done]. cbn. auto.
Qed.

Lemma reembolsar_validas m tid motivo now :
  transacciones_validas m -> transacciones_validas (reembolsar m tid motivo now).1.
Proof.
  intros Hm. unfold reembolsar. destruct (m !! tid) as [t|] eqn:Ht; [|done].
  case_bool_decide; [done|]. cbn.
  destruct (Hm _ _ Ht) as (Hid & H1 & H2 & _).
  apply map_Forall_insert_2; [|done]. cbn. auto.
Qed.

(** X23.  Every transaction the payment service ever stores, through any
    sequence of charges and refunds (overlapping refunds included), sits
    under its own id and is in state "completado" or "reembolsado", and its
    amount is a value that passed the tests [!monto] and [monto <= 0] of
    the handler: if it is a number, it is strictly positive.  It need not
    be a number: a charge whose [monto] is [true] is accepted and
    stored. *)
Theorem stored_payments_are_valid :
  (forall m k t,
     rtc paso_pagos ∅ m ->
     m !! k = Some t ->
     id t = k /\
     (estado t = "completado" \/ estado t = "reembolsado") /\
     Json.truthy (monto t) = true /\
     Json.no_positivo (monto t) = Some false /\
     (forall z, monto t = Json.Num z -> 0 < z)) /\
  (exists m t,
     procesar ∅ {| b_reservaId := Some "r-1"%string; b_monto := Some (Json.Bool true);
                   b_metodoPago := Some "tarjeta"%string;
                   b_usuario := Some "ana"%string |} true "tx-1" 0
     = Some (m, PagoOk t) /\
     m !! "tx-1" = Some t /\
     monto t = Json.Bool true).
Proof.
  split.
  - intros m k t Hr Hk.
    assert (transacciones_validas m) as Hval.
    { clear k t Hk. revert m Hr. apply rtc_ind_r.
      - apply map_Forall_empty.
      - intros m1 m2 _ Hpaso IH. destruct Hpaso as [m1 b exito tid now m' r Hp| |m1 tid motivo now m' r Hp].
        + by eapply procesar_validas.
        + by apply reembolsar_validas.
        + by eapply reembolsar_asigna_validas. }
    destruct (Hval _ _ Hk) as (Hid & H1 & H2 & Hest).
    repeat split; try done.
    intros z Hz. rewrite Hz in H2. unfold Json.no_positivo in H2. cbn in H2.
    injection H2 as H2. lia.
  - eexists _, _. split; [by vm_compute|]. split; by vm_compute.
Qed.

(** X24.  (1) A refund that is refused changes nothing.  (2) A refund that
    is accepted keeps the amount and the reservation of the transaction and
    marks it "reembolsado"; a refund of the same transaction that starts
    afterwards is answered 409 and changes nothing.  (3) But the test of
    the state and the assignment are separated by a sleep of 500 ms: two
    refunds of one transaction that have both passed the test before either
    assigns are both answered 200, and the second overwrites the reason and
    the date of the first.  (4) A refund that nothing overlaps is the test
    followed by the assignment. *)
Theorem refund_twice_only_by_overlap m tid motivo now motivo2 now2 :
  (forall s msg, (reembolsar m tid motivo now).2 = PagoFallo s msg ->
     (reembolsar m tid motivo now).1 = m) /\
  (forall t', (reembolsar m tid motivo now).2 = PagoOk t' ->
     (exists t, m !! tid = Some t /\ monto t' = monto t /\ reservaId t' = reservaId t) /\
     estado t' = "reembolsado" /\
     reembolsar_comprueba (reembolsar m tid motivo now).1 tid
     = inl (PagoFallo 409 "This transaction already has a refund") /\
     reembolsar (reembolsar m tid motivo now).1 tid motivo2 now2
     = ((reembolsar m tid motivo now).1,
        PagoFallo 409 "This transaction already has a refund")) /\
  (forall t, reembolsar_comprueba m tid = inr t ->
     exists m1 t1 m2 t2,
       reembolsar_asigna m tid motivo now = Some (m1, PagoOk t1) /\
       reembolsar_asigna m1 tid motivo2 now2 = Some (m2, PagoOk t2) /\
       estado t1 = "reembolsado" /\ estado t2 = "reembolsado" /\
       motivoReembolso t1 = motivo /\ fechaReembolso t1 = Some now /\
       motivoReembolso t2 = motivo2 /\ fechaReembolso t2 = Some now2 /\
       m2 !! tid = Some t2) /\
  (forall r, reembolsar_comprueba m tid = inl r -> reembolsar m tid motivo now = (m, r)) /\
  (forall t, reembolsar_comprueba m tid = inr t ->
     reembolsar_asigna m tid motivo now = Some (reembolsar m tid motivo now)).
Proof.
  split; [|split; [|split; [|split]]].
  - unfold reembolsar. destruct (m !! tid) as [t|]; [|done].
    by case_bool_decide.
  - unfold reembolsar. destruct (m !! tid) as [t|] eqn:Ht; [|done].
    case_bool_decide as Hest; [done|]. cbn [fst snd].
    intros t' [= <-]. split; [by exists t|]. split; [done|].
    unfold reembolsar_comprueba. rewrite lookup_insert_eq. done.
  - unfold reembolsar_comprueba, reembolsar_asigna.
    destruct (m !! tid) as [t0|] eqn:Ht; [|done].
    case_bool_decide as Hest; [done|]. intros t [= <-]. cbn.
    eexists _, _, _, _. split; [reflexivity|].
    rewrite lookup_insert_eq. cbn. split; [reflexivity|].
    rewrite lookup_insert_eq. by repeat split.
  - unfold reembolsar_comprueba, reembolsar. destruct (m !! tid) as [t|]; [|by intros r [= <-]].
    case_bool_decide; [by intros r [= <-]|done].
  - unfold reembolsar_comprueba, reembolsar, reembolsar_asigna.
    destruct (m !! tid) as [t0|]; [|done]. by case_bool_decide.
Qed.


End PagosFacts.

Lemma cache_round_trip_witness :
  let d := {| Reservas.eventoId := "evento-1"; Reservas.nombre := "Rock Concert";
              Reservas.asientosDisponibles := 100; Reservas.precio := 50;
              Reservas.disponible := true; Reservas.fromCache := false |} in
  Reservas.consultarInventario
    (Reservas.consultarInventario ∅ "evento-1" (Resolved d) 1000).1
    "evento-1" (Rejected (Reservas.Error "ECONNREFUSED")) 2000
  = (<["evento-1"%string := {| Reservas.data := d; Reservas.timestamp := 1000 |}]> ∅,
     Resolved {| Reservas.eventoId := "evento-1"; Reservas.nombre := "Rock Concert";
                 Reservas.asientosDisponibles := 100; Reservas.precio := 50;
                 Reservas.disponible := true; Reservas.fromCache := true |}).
Proof.
  intros d.
  apply (proj1 (cache_round_trip ∅ "evento-1" d 1000 (Reservas.Error "ECONNREFUSED") 2000
                  ltac:(by vm_compute))).
Defined.

Lemma created_means_stored_witness :
  let env := Reservas.entorno_ejemplo Reservas.pasarela_lenta in
  let r :=
    Reservas.nueva_reserva env Reservas.peticion_ejemplo
      {| Reservas.eventoId := "evento-1"; Reservas.nombre := "Rock Concert";
         Reservas.asientosDisponibles := 100; Reservas.precio := 50;
         Reservas.disponible := true; Reservas.fromCache := false |}
      {| Reservas.transaccionId := "tx-1" |} in
  Reservas.get_reserva
    (Reservas.post_reservas Reservas.servicio_inicial Reservas.peticion_ejemplo env).1.1
    (Reservas.reservaId env) = Some r.
Proof.
  intros env r.
  apply (created_means_stored Reservas.servicio_inicial Reservas.peticion_ejemplo env 201 r).
  vm_compute. reflexivity.
Defined.

Lemma failed_release_hides_success_witness :
  let inv := {| Reservas.eventoId := "evento-1"; Reservas.nombre := "Rock Concert";
                Reservas.asientosDisponibles := 100; Reservas.precio := 50;
                Reservas.disponible := true; Reservas.fromCache := false |} in
  let pd := {| Reservas.transaccionId := "tx-1" |} in
  let env :=
    {| Reservas.reservaId := "r-1"; Reservas.ahora := 0; Reservas.redlock := true;
       Reservas.acquire := Resolved tt;
       Reservas.release :=
         Rejected (Reservas.Error
                     "The operation was unable to achieve a quorum during its retry window.");
       Reservas.get_inventario := Resolved inv;
       Reservas.post_reservar := Resolved tt;
       Reservas.pago := Resolved pd;
       Reservas.post_liberar := Resolved tt;
       Reservas.post_notificar := Resolved tt |} in
  Reservas.get_reserva
    (Reservas.post_reservas Reservas.servicio_inicial Reservas.peticion_ejemplo env).1.1
    (Reservas.reservaId env)
  = Some (Reservas.nueva_reserva env Reservas.peticion_ejemplo inv pd).
Proof.
  intros inv pd env.
  apply (failed_release_hides_success Reservas.servicio_inicial Reservas.peticion_ejemplo
           env inv pd
           (Reservas.Error
              "The operation was unable to achieve a quorum during its retry window."));
    try reflexivity.
  simpl. lia.
Defined.

Lemma invalid_quantity_is_answered_500_witness :
  let inv := {| Reservas.eventoId := "evento-1"; Reservas.nombre := "Rock Concert";
                Reservas.asientosDisponibles := 100; Reservas.precio := 50;
                Reservas.disponible := true; Reservas.fromCache := false |} in
  let req := {| Reservas.p_eventoId := "evento-1"; Reservas.asientos := -1;
                Reservas.usuario := "ana"; Reservas.metodoPago := "tarjeta" |} in
  let p : Reservas.Peer Z :=
    {| Reservas.latency := 5;
       Reservas.reply :=
         Reservas.axios_inventario
           (Inventario.reservar (Inventario.inicial false) "evento-1" (Some (-1)) true).2 |} in
  let env :=
    {| Reservas.reservaId := "r-1"; Reservas.ahora := 0; Reservas.redlock := true;
       Reservas.acquire := Resolved tt; Reservas.release := Resolved tt;
       Reservas.get_inventario := Resolved inv;
       Reservas.post_reservar :=
         Reservas.sin_datos (Reservas.fire Reservas.inventarioClient p 0);
       Reservas.pago := Resolved {| Reservas.transaccionId := "tx-1" |};
       Reservas.post_liberar := Resolved tt;
       Reservas.post_notificar := Resolved tt |} in
  (Reservas.post_reservas Reservas.servicio_inicial req env).2
  = Reservas.Fallo 500 "Error reserving seats".
Proof.
  intros inv req p env.
  refine (proj1 (proj2 (proj2 (proj2
            (invalid_quantity_is_answered_500 Reservas.servicio_inicial
               (Inventario.inicial false) req env inv true p 0 _ _ _ _ _ _ _ _))))).
  - reflexivity.
  - reflexivity.
  - simpl. lia.
  - simpl. lia.
  - intros _. split; reflexivity.
  - vm_compute. split; [reflexivity|discriminate].
  - reflexivity.
  - reflexivity.
Defined.

Lemma payment_timeout_is_answered_402_witness :
  let p := {| Reservas.latency := 30000;
              Reservas.reply := Resolved {| Reservas.transaccionId := "tx-1" |} |} in
  let inv := {| Reservas.eventoId := "evento-1"; Reservas.nombre := "Rock Concert";
                Reservas.asientosDisponibles := 100; Reservas.precio := 50;
                Reservas.disponible := true; Reservas.fromCache := false |} in
  let env :=
    {| Reservas.reservaId := "r-1"; Reservas.ahora := 0; Reservas.redlock := false;
       Reservas.acquire := Resolved tt; Reservas.release := Resolved tt;
       Reservas.get_inventario := Resolved inv;
       Reservas.post_reservar := Resolved tt;
       Reservas.pago := (Reservas.procesarPago_tarea Reservas.pagosClient p 0).2;
       Reservas.post_liberar := Resolved tt;
       Reservas.post_notificar := Resolved tt |} in
  (Reservas.post_reservas Reservas.servicio_inicial Reservas.peticion_ejemplo env).2
  = Reservas.Fallo 402 "Payment rejected".
Proof.
  intros p inv env.
  refine (proj1 (proj2 (proj2
            (payment_timeout_is_answered_402 Reservas.servicio_inicial
               Reservas.peticion_ejemplo env inv p 0 _ _ _ _ _ _ _)))).
  - vm_compute. reflexivity.
  - vm_compute. reflexivity.
  - reflexivity.
  - vm_compute. discriminate.
  - intros H. discriminate H.
  - reflexivity.
  - reflexivity.
Defined.

Lemma stored_payments_are_valid_witness :
  let t := {| Pagos.id := "tx-1"; Pagos.reservaId := "r-1"; Pagos.monto := Json.Num 100;
              Pagos.metodoPago := "tarjeta"; Pagos.usuario := "ana";
              Pagos.estado := "completado"; Pagos.timestamp := 0;
              Pagos.motivoReembolso := None; Pagos.fechaReembolso := None |} in
  Pagos.id t = "tx-1"%string /\
  (Pagos.estado t = "completado"%string \/ Pagos.estado t = "reembolsado"%string) /\
  Json.truthy (Pagos.monto t) = true /\
  Json.no_positivo (Pagos.monto t) = Some false /\
  (forall z, Pagos.monto t = Json.Num z -> 0 < z).
Proof.
  intros t.
  apply (proj1 stored_payments_are_valid (<["tx-1"%string := t]> ∅) "tx-1" t).
  - eapply rtc_l; [|apply rtc_refl].
    apply (Pagos.paso_procesar ∅
             {| Pagos.b_reservaId := Some "r-1"%string; Pagos.b_monto := Some (Json.Num 100);
                Pagos.b_metodoPago := Some "tarjeta"%string;
                Pagos.b_usuario := Some "ana"%string |} true "tx-1" 0 _ (Pagos.PagoOk t)).
    reflexivity.
  - vm_compute. reflexivity.
Defined.

Lemma refund_twice_only_by_overlap_witness :
  let t := {| Pagos.id := "tx-1"; Pagos.reservaId := "r-1"; Pagos.monto := Json.Num 100;
              Pagos.metodoPago := "tarjeta"; Pagos.usuario := "ana";
              Pagos.estado := "completado"; Pagos.timestamp := 0;
              Pagos.motivoReembolso := None; Pagos.fechaReembolso := None |} in
  let m : gmap string Pagos.transaccion := <["tx-1"%string := t]> ∅ in
  exists m1 t1 m2 t2,
    Pagos.reembolsar_asigna m "tx-1" (Some "a"%string) 500 = Some (m1, Pagos.PagoOk t1) /\
    Pagos.reembolsar_asigna m1 "tx-1" (Some "b"%string) 600 = Some (m2, Pagos.PagoOk t2) /\
    Pagos.motivoReembolso t2 = Some "b"%string.
Proof.
  intros t m.
  destruct (proj1 (proj2 (proj2
              (refund_twice_only_by_overlap m "tx-1" (Some "a"%string) 500
                 (Some "b"%string) 600))) t)
    as (m1 & t1 & m2 & t2 & H1 & H2 & _ & _ & _ & _ & H3 & _).
  - vm_compute. reflexivity.
  - by exists m1, t1, m2, t2.
Defined.

